(** * Neon Agent: the MCP integration hub

    A shallow embedding of [src/services/MCPIntegrationHub.ts]: the
    connector executor ([executeConnector] and its five dispatch
    strategies), the response cache and the workflow engine
    ([executeWorkflow], [evaluateCondition]), and around them the registry
    ([processConnectorConfig], [loadBuiltinConnectors], [clearConnectors],
    [toggleConnector]), the cache sweep, [testConnector] and the
    introspection methods.

    Conventions of the embedding.
    - A JavaScript string is a [string]: a sequence of code units below 256.
    - A JavaScript value is a [JsValue]: acyclic data, numbers restricted to
      the integers that JavaScript writes in plain decimal (those below
      10^21 in magnitude), plus BigInt (the one datum on which
      [JSON.stringify] throws). An object is the ordered list of its
      properties.
    - Objects are values, except where the code writes to an object that
      something else also holds. [executeAPIConnector] works on
      [connector.config.headers] itself, and the model stores what it wrote.
      A condition expression of a workflow is evaluated with the result log
      of the run and the variables of the registered workflow in scope, and
      can write to both: the engine of module [Engine] takes the
      evaluation to have no effect, the engine of module [Live] takes from
      the environment what the evaluation left behind, and the first is the
      second in a world whose evaluations leave everything as it is.
    - A call runs to completion before the next one starts.
    - A [Promise<T>] that settles is a [Completion T]: [Normal] for a
      resolved promise or a returned value, [Throw] for a rejection or a
      thrown exception, carrying the text [`${error}`] of the error.
    - Everything outside the process (clock, network, child processes, file
      system, the AI provider, [Function] evaluation, [JSON.parse], [URL],
      [Buffer]) is read from an explicit environment record, over which
      every theorem quantifies. *)

From stdpp Require Import base strings pretty list gmap sorting.

Local Open Scope Z_scope.
Set Warnings "-register-all".

(** ** JavaScript values *)

Module Js.

Inductive Completion (A : Type) : Type :=
| Normal (a : A)
| Throw (e : string).
Arguments Normal {A} a.
Arguments Throw {A} e.

#[global] Instance completion_ret : MRet Completion := fun A a => Normal a.

#[global] Instance completion_bind : MBind Completion := fun A B k m =>
  match m with
  | Normal a => k a
  | Throw e => Throw e
  end.

Inductive JsValue : Type :=
| JUndefined
| JNull
| JBool (b : bool)
| JNum (n : Z)
| JBigInt (n : Z)
| JStr (s : string)
| JArr (items : list JsValue)
| JObj (props : list (string * JsValue)).

(** An object is the list of its own enumerable properties in enumeration
    order (insertion order for keys that are not array indices). *)
Abbreviation JsObject := (list (string * JsValue)).

(** [obj[key]] on an object. *)
Fixpoint obj_get (o : JsObject) (key : string) : JsValue :=
  match o with
  | [] => JUndefined
  | (k, v) :: rest => if decide (k = key) then v else obj_get rest key
  end.

(** [obj[key] = v]: an existing property keeps its place, a new one is
    added last. *)
Fixpoint obj_set (o : JsObject) (key : string) (v : JsValue) : JsObject :=
  match o with
  | [] => [(key, v)]
  | (k, w) :: rest =>
      if decide (k = key) then (k, v) :: rest else (k, w) :: obj_set rest key v
  end.

(** ToBoolean. *)
Definition truthy (v : JsValue) : bool :=
  match v with
  | JUndefined | JNull => false
  | JBool b => b
  | JNum n | JBigInt n => negb (n =? 0)
  | JStr s => negb (bool_decide (s = ""))
  | JArr _ | JObj _ => true
  end.

(** [a || b]. *)
Definition or_else (a b : JsValue) : JsValue := if truthy a then a else b.

Definition join (sep : string) (parts : list string) : string :=
  match parts with
  | [] => ""
  | p :: rest => p +:+ foldr (fun q acc => sep +:+ q +:+ acc) "" rest
  end.

(** ToString, as applied by template literals and by [+] on a string. *)
Fixpoint ToString (v : JsValue) : string :=
  match v with
  | JUndefined => "undefined"
  | JNull => "null"
  | JBool true => "true"
  | JBool false => "false"
  | JNum n | JBigInt n => pretty n
  | JStr s => s
  | JArr items =>
      join ","
        ((fix each (l : list JsValue) : list string :=
            match l with
            | [] => []
            | (JUndefined | JNull) :: r => "" :: each r
            | x :: r => ToString x :: each r
            end) items)
  | JObj _ => "[object Object]"
  end.

(** [v.key] for a fixed property name that no built-in prototype defines
    ([path], [args], [data], [sql], [content]): reading it off [null] or
    [undefined] throws V8's TypeError, off any other non-object it yields
    [undefined]. *)
Definition get_prop (v : JsValue) (key : string) : Completion JsValue :=
  match v with
  | JUndefined | JNull =>
      Throw ("TypeError: Cannot read properties of " +:+ ToString v +:+
             " (reading '" +:+ key +:+ "')")
  | JObj o => Normal (obj_get o key)
  | _ => Normal JUndefined
  end.

(** *** [JSON.stringify] *)

Definition hex_digit (n : N) : Ascii.ascii :=
  Ascii.ascii_of_N (if (n <? 10)%N then 48 + n else 87 + n)%N.

Definition dquote : string := String (Ascii.ascii_of_N 34) "".
Definition backslash : string := String (Ascii.ascii_of_N 92) "".

(** QuoteJSONString on one code unit. *)
Definition quote_char (c : Ascii.ascii) : string :=
  let n := Ascii.N_of_ascii c in
  if (n =? 34)%N then backslash +:+ dquote
  else if (n =? 92)%N then backslash +:+ backslash
  else if (n =? 8)%N then backslash +:+ "b"
  else if (n =? 12)%N then backslash +:+ "f"
  else if (n =? 10)%N then backslash +:+ "n"
  else if (n =? 13)%N then backslash +:+ "r"
  else if (n =? 9)%N then backslash +:+ "t"
  else if (n <? 32)%N then
    backslash +:+ "u00" +:+ String (hex_digit (n / 16)) (String (hex_digit (n mod 16)) "")
  else String c "".

Fixpoint quote_body (s : string) : string :=
  match s with
  | EmptyString => ""
  | String c r => quote_char c +:+ quote_body r
  end.

Definition quote (s : string) : string :=
  dquote +:+ quote_body s +:+ dquote.

Definition bigint_error : string :=
  "TypeError: Do not know how to serialize a BigInt".

(** [JSON.stringify(v)]: [None] is the JavaScript [undefined] it returns for
    [undefined]; a BigInt anywhere makes it throw. Properties are written in
    enumeration order, those holding [undefined] are left out, and
    [undefined] inside an array is written as [null]. *)
Fixpoint JSON_stringify (v : JsValue) : Completion (option string) :=
  match v with
  | JUndefined => Normal None
  | JNull => Normal (Some "null")
  | JBool true => Normal (Some "true")
  | JBool false => Normal (Some "false")
  | JNum n => Normal (Some (pretty n))
  | JBigInt _ => Throw bigint_error
  | JStr s => Normal (Some (quote s))
  | JArr items =>
      parts ← (fix each (l : list JsValue) : Completion (list string) :=
                 match l with
                 | [] => Normal []
                 | x :: r =>
                     sx ← JSON_stringify x ;
                     sr ← each r ;
                     Normal (default "null" sx :: sr)
                 end) items ;
      Normal (Some ("[" +:+ join "," parts +:+ "]"))
  | JObj props =>
      parts ← (fix each (l : JsObject) : Completion (list string) :=
                 match l with
                 | [] => Normal []
                 | (k, x) :: r =>
                     sx ← JSON_stringify x ;
                     sr ← each r ;
                     Normal (match sx with
                             | Some s => (quote k +:+ ":" +:+ s) :: sr
                             | None => sr
                             end)
                 end) props ;
      Normal (Some ("{" +:+ join "," parts +:+ "}"))
  end.

(** A template-literal hole filled with the result of [JSON.stringify]. *)
Definition show_json (o : option string) : string := default "undefined" o.

(** *** The text of an object

    [JSON.stringify] writes an object as its members between braces, with
    commas between them; a member is the quoted name, a colon and the text
    of the value. *)

(** The members that [JSON.stringify] writes for an object: the name and
    the text of the value of each property that it does not leave out. *)
Fixpoint members (p : JsObject) : Completion (list (string * string)) :=
  match p with
  | [] => Normal []
  | (k, x) :: r =>
      sx ← JSON_stringify x ;
      sr ← members r ;
      Normal (match sx with
              | Some s => (k, s) :: sr
              | None => sr
              end)
  end.

Definition member_text (m : string * string) : string := quote m.1 +:+ ":" +:+ m.2.

(** The members after the first, each with its comma, and then [t]. *)
Definition tail_text (ms : list (string * string)) (t : string) : string :=
  foldr (fun q acc => "," +:+ q +:+ acc) t (member_text <$> ms).

(** The names of the properties that [JSON.stringify] writes for an
    object, in the order in which it writes them. *)
Definition written_names (p : JsObject) : list string :=
  omap (fun kv : string * JsValue =>
          match JSON_stringify kv.2 with
          | Normal (Some _) => Some kv.1
          | _ => None
          end) p.

Definition unhex (c : Ascii.ascii) : N :=
  let n := Ascii.N_of_ascii c in
  (if n <? 58 then n - 48 else n - 87)%N.

(** Reading a quoted string back: the text up to the closing quote with
    its escapes undone, and what comes after the quote. *)
Fixpoint read_quoted (s : string) : option (string * string) :=
  match s with
  | EmptyString => None
  | String c r =>
      let n := Ascii.N_of_ascii c in
      if (n =? 34)%N then Some ("", r)
      else if (n =? 92)%N then
        match r with
        | String e r' =>
            let m := Ascii.N_of_ascii e in
            if (m =? 117)%N then
              match r' with
              | String _ (String _ (String h (String l r''))) =>
                  match read_quoted r'' with
                  | Some (k, rest) =>
                      Some (String (Ascii.ascii_of_N (16 * unhex h + unhex l)) k, rest)
                  | None => None
                  end
              | _ => None
              end
            else
              match read_quoted r' with
              | Some (k, rest) =>
                  Some (String (Ascii.ascii_of_N
                                  (if (m =? 98) then 8 else if (m =? 102) then 12
                                   else if (m =? 110) then 10 else if (m =? 114) then 13
                                   else if (m =? 116) then 9 else m)%N) k, rest)
              | None => None
              end
        | EmptyString => None
        end
      else
        match read_quoted r with
        | Some (k, rest) => Some (String c k, rest)
        | None => None
        end
  end.

(** The name at the head of a text that starts with a quoted name. *)
Definition read_key (s : string) : option (string * string) :=
  match s with
  | String c r => if (Ascii.N_of_ascii c =? 34)%N then read_quoted r else None
  | EmptyString => None
  end.

(** *** [String.prototype.trim] *)

(** WhiteSpace and LineTerminator code units below 256. *)
Definition is_white_space (c : Ascii.ascii) : bool :=
  let n := Ascii.N_of_ascii c in
  ((n =? 9) || (n =? 10) || (n =? 11) || (n =? 12) || (n =? 13) ||
   (n =? 32) || (n =? 160))%N.

Fixpoint trimStart (s : string) : string :=
  match s with
  | EmptyString => ""
  | String c r => if is_white_space c then trimStart r else s
  end.

Definition trimEnd (s : string) : string :=
  String.rev (trimStart (String.rev s)).

Definition trim (s : string) : string := trimEnd (trimStart s).

(** [Buffer.byteLength(s)]: the UTF-8 length of [s]. *)
Fixpoint byteLength (s : string) : Z :=
  match s with
  | EmptyString => 0
  | String c r => (if (Ascii.N_of_ascii c <? 128)%N then 1 else 2) + byteLength r
  end.

End Js.

(** ** Data model of the hub *)

Module Hub.
Import Js.

Record Authentication := {
  auth_type : string;
  credentials : JsObject
}.

Record MCPConnectorConfig := {
  endpoint : option string;
  apiKey : option string;
  command : option string;
  filePath : option string;
  connectionString : option string;
  webhookUrl : option string;
  headers : option JsObject;
  timeout : option Z;
  retries : option Z;
  authentication : option Authentication
}.

(** [conn_type] is the raw tag: the executor switches on the string and has
    a default branch for tags outside the five known ones. *)
Record MCPConnector := {
  conn_id : string;
  conn_name : string;
  conn_description : string;
  conn_type : string;
  config : MCPConnectorConfig;
  enabled : bool;
  priority : Z
}.

Record MCPContext := {
  workspaceRoot : string;
  currentFile : option string;
  selectedText : option string;
  language : option string;
  gitBranch : option string;
  ctx_timestamp : Z;
  userRequest : string
}.

(** An optional field that is missing and one that holds [undefined] are
    both [None]. *)
Record MCPResponse := {
  success : bool;
  data : option JsValue;
  error : option string;
  metadata : option JsValue;
  cached : option bool;
  duration : option Z
}.

Record CacheEntry := {
  response : MCPResponse;
  timestamp : Z
}.

(** [step_type] is the raw tag, as for connectors. *)
Record WorkflowStep := {
  step_id : string;
  step_name : string;
  step_type : string;
  connectorId : option string;
  prompt : option string;
  condition : option string;
  onSuccess : option string;
  onFailure : option string;
  step_timeout : option Z;
  required : option bool
}.

Record MCPWorkflow := {
  wf_id : string;
  wf_name : string;
  wf_description : string;
  triggers : list string;
  steps : list WorkflowStep;
  variables : JsValue;
  wf_enabled : bool
}.

(** The three maps of the class. *)
Record State := {
  connectors : gmap string MCPConnector;
  workflows : gmap string MCPWorkflow;
  responseCache : gmap string CacheEntry
}.

(** What a run did besides returning, in program order. *)
Inductive Effect :=
| CacheGet (key : string)
| CacheSet (key : string)
| Log (message : string)
| Dispatch (strategy : string).

(** *** The world outside *)

Record URL := {
  protocol : string;
  hostname : string;
  port : string;
  pathname : string;
  search : string
}.

Record RequestOptions := {
  opt_hostname : string;
  opt_port : string;
  opt_path : string;
  opt_method : string;
  opt_headers : JsObject
}.

Record IncomingMessage := {
  statusCode : option Z;
  statusMessage : string;
  res_headers : JsValue;
  res_data : string
}.

(** How the promise around one [request] settles: the timer fires first, the
    response ends, or the request emits [error]. *)
Inductive HttpOutcome :=
| TimerFired
| Responded (res : IncomingMessage)
| RequestError (message : string).

(** [execAsync]: resolves with the two streams, or rejects with an error
    carrying [message] and whatever [stdout] and [stderr] it has. *)
Inductive ExecOutcome :=
| ExecResolved (stdout stderr : string)
| ExecRejected (message : string) (stdout stderr : JsValue).

Record Stats := {
  size : Z;
  mtime : JsValue;
  isFile : bool;
  isDirectory : bool
}.

Record Env := {
  (* Date.now() at the cache check, at startTime, in the webhook payload,
     after dispatch, and when the cache entry is written *)
  now_lookup : Z;
  now_start : Z;
  now_payload : Z;
  now_end : Z;
  now_store : Z;
  new_URL : string → Completion URL;
  JSON_parse : string → Completion JsValue;
  base64 : string → string;
  (* request(https?, options, body written, timeout) *)
  request : bool → RequestOptions → option string → Z → HttpOutcome;
  (* execAsync(command, { timeout, cwd }) *)
  execAsync : string → Z → option string → ExecOutcome;
  readFile : JsValue → Completion string;
  writeFile : JsValue → JsValue → Completion unit;
  appendFile : JsValue → JsValue → Completion unit;
  access : JsValue → Completion unit;
  stat : JsValue → Completion Stats
}.

Definition of_string (o : option string) : JsValue :=
  match o with
  | Some s => JStr s
  | None => JUndefined
  end.

(** The context object as [JSON.stringify] sees it, fields in the order of
    the interface. *)
Definition context_value (context : option MCPContext) : JsValue :=
  match context with
  | None => JUndefined
  | Some c =>
      JObj [("workspaceRoot", JStr (workspaceRoot c));
            ("currentFile", of_string (currentFile c));
            ("selectedText", of_string (selectedText c));
            ("language", of_string (language c));
            ("gitBranch", of_string (gitBranch c));
            ("timestamp", JNum (ctx_timestamp c));
            ("userRequest", JStr (userRequest c))]
  end.

Definition failure (message : string) : MCPResponse :=
  {| success := false; data := None; error := Some message;
     metadata := None; cached := None; duration := None |}.

Definition succeed (d : JsValue) : MCPResponse :=
  {| success := true; data := Some d; error := None;
     metadata := None; cached := None; duration := None |}.

(** [x || ''] for an optional string. *)
Definition or_empty (o : option string) : string := default "" o.

(** [if (body)]: a string is written when it is there and not empty. *)
Definition written (body : option string) : option string :=
  match body with
  | Some s => if bool_decide (s = "") then None else Some s
  | None => None
  end.

(** [res.statusCode ? res.statusCode < 400 : false] *)
Definition status_ok (sc : option Z) : bool :=
  match sc with
  | Some n => if n =? 0 then false else n <? 400
  | None => false
  end.

(** [res.statusCode && res.statusCode >= 400], as the test of [?:]. *)
Definition status_bad (sc : option Z) : bool :=
  match sc with
  | Some n => if n =? 0 then false else 400 <=? n
  | None => false
  end.

Definition status_value (sc : option Z) : JsValue :=
  match sc with
  | Some n => JNum n
  | None => JUndefined
  end.

(** *** The five dispatch strategies *)

Section Dispatch.
Context (env : Env).

Definition addAuthentication (hs : JsObject) (auth : Authentication) : JsObject :=
  let creds := credentials auth in
  if decide (auth_type auth = "bearer") then
    obj_set hs "Authorization" (JStr ("Bearer " +:+ ToString (obj_get creds "token")))
  else if decide (auth_type auth = "basic") then
    obj_set hs "Authorization"
      (JStr ("Basic " +:+
             base64 env (ToString (obj_get creds "username") +:+ ":" +:+
                         ToString (obj_get creds "password"))))
  else if decide (auth_type auth = "apikey") then
    obj_set hs (ToString (or_else (obj_get creds "header") (JStr "X-API-Key")))
      (obj_get creds "key")
  else hs.

Record Built := {
  b_url : string;
  b_method : string;
  b_body : option string
}.

(** The [switch (action)] of [executeAPIConnector]. The second component is
    the header object when the switch is left, by [break], [return] or an
    exception; [Normal None] is the [default] branch. *)
Definition build_request (url : string) (hs : JsObject) (action : string)
    (params : JsValue) : Completion (option Built) * JsObject :=
  if decide (action = "get") then
    match get_prop params "path" with
    | Throw e => (Throw e, hs)
    | Normal p =>
        (Normal (Some {| b_url := url +:+ ToString (or_else p (JStr ""));
                         b_method := "GET"; b_body := None |}), hs)
    end
  else if decide (action = "post") then
    match (p ← get_prop params "path";
           d ← get_prop params "data";
           b ← JSON_stringify d;
           Normal (p, b)) with
    | Throw e => (Throw e, hs)
    | Normal (p, b) =>
        (Normal (Some {| b_url := url +:+ ToString (or_else p (JStr ""));
                         b_method := "POST"; b_body := b |}),
         obj_set hs "Content-Type" (JStr "application/json"))
    end
  else if decide (action = "put") then
    match (p ← get_prop params "path";
           d ← get_prop params "data";
           b ← JSON_stringify d;
           Normal (p, b)) with
    | Throw e => (Throw e, hs)
    | Normal (p, b) =>
        (Normal (Some {| b_url := url +:+ ToString (or_else p (JStr ""));
                         b_method := "PUT"; b_body := b |}),
         obj_set hs "Content-Type" (JStr "application/json"))
    end
  else if decide (action = "delete") then
    match get_prop params "path" with
    | Throw e => (Throw e, hs)
    | Normal p =>
        (Normal (Some {| b_url := url +:+ ToString (or_else p (JStr ""));
                         b_method := "DELETE"; b_body := None |}), hs)
    end
  else (Normal None, hs).

(** The envelope resolved in the [end] handler of [executeAPIConnector]. *)
Definition api_response (res : IncomingMessage) : MCPResponse :=
  {| success := status_ok (statusCode res);
     data := Some (match JSON_parse env (res_data res) with
                   | Normal jsonData => jsonData
                   | Throw _ => JStr (res_data res)
                   end);
     error := if status_bad (statusCode res)
              then Some ("HTTP " +:+ ToString (status_value (statusCode res)) +:+
                         ": " +:+ statusMessage res)
              else None;
     metadata := Some (JObj [("status", status_value (statusCode res));
                             ("headers", res_headers res)]);
     cached := None; duration := None |}.

(** [executeAPIConnector]. It returns the header object it worked on as
    well: when the connector has configured headers that object is
    [connector.config.headers] itself, not a copy. *)
Definition executeAPIConnector (connector : MCPConnector) (action : string)
    (params : JsValue) : Completion MCPResponse * JsObject :=
  let cfg := config connector in
  let hs0 := default [] (headers cfg) in
  let timeout := default 10000 (timeout cfg) in
  let url := or_empty (endpoint cfg) in
  let hs1 := match authentication cfg with
             | Some auth => addAuthentication hs0 auth
             | None => hs0
             end in
  match build_request url hs1 action params with
  | (Throw e, hs) => (Throw e, hs)
  | (Normal None, hs) => (Normal (failure ("Unsupported API action: " +:+ action)), hs)
  | (Normal (Some b), hs) =>
      (match new_URL env (b_url b) with
       | Throw e => Normal (failure ("API request failed: " +:+ e))
       | Normal urlObj =>
           let isHttps := bool_decide (protocol urlObj = "https:") in
           let options := {| opt_hostname := hostname urlObj;
                             opt_port := port urlObj;
                             opt_path := pathname urlObj +:+ search urlObj;
                             opt_method := b_method b;
                             opt_headers := hs |} in
           match request env isHttps options (written (b_body b)) timeout with
           | TimerFired => Normal (failure "Request timeout")
           | Responded res => Normal (api_response res)
           | RequestError message =>
               Normal (failure ("API request failed: " +:+ message))
           end
       end, hs)
  end.

(** The [switch (action)] of [executeCLIConnector], which runs before its
    [try]. *)
Definition cli_command (connector : MCPConnector) (action : string)
    (params : JsValue) : Completion string :=
  let fullCommand := or_empty (command (config connector)) in
  if decide (action = "run") then
    a ← get_prop params "args";
    Normal (fullCommand +:+ " " +:+ ToString (or_else a (JStr "")))
  else if decide (action = "version") then
    Normal (fullCommand +:+ " --version")
  else
    a ← get_prop params "args";
    Normal (fullCommand +:+ " " +:+ action +:+ " " +:+ ToString (or_else a (JStr ""))).

Definition cli_data (stdout stderr : JsValue) : JsValue :=
  JObj [("stdout", stdout); ("stderr", stderr)].

Definition executeCLIConnector (connector : MCPConnector) (action : string)
    (params : JsValue) (context : option MCPContext) : Completion MCPResponse :=
  let timeout := default 30000 (timeout (config connector)) in
  fullCommand ← cli_command connector action params;
  match execAsync env fullCommand timeout (workspaceRoot <$> context) with
  | ExecResolved stdout stderr =>
      Normal (succeed (cli_data (JStr (trim stdout)) (JStr (trim stderr))))
  | ExecRejected message stdout stderr =>
      Normal {| success := false;
                data := Some (cli_data (or_else stdout (JStr ""))
                                       (or_else stderr (JStr "")));
                error := Some ("CLI execution failed: " +:+ message);
                metadata := None; cached := None; duration := None |}
  end.

(** The [switch (action)] of [executeFileConnector], inside its [try]:
    [Normal None] is the [default] branch. *)
Definition file_action (connector : MCPConnector) (action : string)
    (params : JsValue) : Completion (option JsValue) :=
  let fp := of_string (filePath (config connector)) in
  if decide (action = "read") then
    p ← get_prop params "path";
    content ← readFile env (or_else p fp);
    Normal (Some (JObj [("content", JStr content)]))
  else if decide (action = "write") then
    p ← get_prop params "path";
    c ← get_prop params "content";
    _ ← writeFile env (or_else p fp) c;
    Normal (Some (JObj [("success", JBool true)]))
  else if decide (action = "append") then
    p ← get_prop params "path";
    c ← get_prop params "content";
    _ ← appendFile env (or_else p fp) c;
    Normal (Some (JObj [("success", JBool true)]))
  else if decide (action = "exists") then
    p ← get_prop params "path";
    Normal (Some (JObj [("exists",
                         JBool (match access env (or_else p fp) with
                                | Normal _ => true
                                | Throw _ => false
                                end))]))
  else if decide (action = "stat") then
    p ← get_prop params "path";
    stats ← stat env (or_else p fp);
    Normal (Some (JObj [("size", JNum (size stats));
                        ("mtime", mtime stats);
                        ("isFile", JBool (isFile stats));
                        ("isDirectory", JBool (isDirectory stats))]))
  else Normal None.

Definition executeFileConnector (connector : MCPConnector) (action : string)
    (params : JsValue) : MCPResponse :=
  match file_action connector action params with
  | Normal (Some result) => succeed result
  | Normal None => failure ("Unsupported file action: " +:+ action)
  | Throw e => failure ("File operation failed: " +:+ e)
  end.

Definition executeDatabaseConnector (connector : MCPConnector) (action : string)
    (params : JsValue) : MCPResponse :=
  if decide (action = "query") then
    match get_prop params "sql" with
    | Normal sql =>
        succeed (JObj [("rows", JArr []);
                       ("rowCount", JNum 0);
                       ("query", or_else sql (JStr ""))])
    | Throw e => failure ("Database operation failed: " +:+ e)
    end
  else if decide (action = "schema") then
    succeed (JObj [("tables", JArr [JStr "users"; JStr "projects"; JStr "tasks"]);
                   ("version", JStr "1.0.0")])
  else failure ("Unsupported database action: " +:+ action).

(** The envelope resolved in the [end] handler of [executeWebhookConnector]. *)
Definition webhook_response (res : IncomingMessage) : MCPResponse :=
  {| success := status_ok (statusCode res);
     data := Some (JStr (res_data res));
     error := if status_bad (statusCode res)
              then Some ("Webhook failed: " +:+ statusMessage res)
              else None;
     metadata := None; cached := None; duration := None |}.

Definition executeWebhookConnector (connector : MCPConnector) (action : string)
    (params : JsValue) (context : option MCPContext) : MCPResponse :=
  let cfg := config connector in
  let timeout := default 5000 (timeout cfg) in
  match (urlObj ← new_URL env (ToString (of_string (webhookUrl cfg)));
         json ← JSON_stringify (JObj [("action", JStr action);
                                      ("params", params);
                                      ("context", context_value context);
                                      ("timestamp", JNum (now_payload env))]);
         Normal (urlObj, show_json json)) with
  | Throw e => failure ("Webhook execution failed: " +:+ e)
  | Normal (urlObj, postData) =>
      let isHttps := bool_decide (protocol urlObj = "https:") in
      let options :=
        {| opt_hostname := hostname urlObj;
           opt_port := port urlObj;
           opt_path := pathname urlObj +:+ search urlObj;
           opt_method := "POST";
           opt_headers := [("Content-Type", JStr "application/json");
                           ("Content-Length", JNum (byteLength postData))] |} in
      match request env isHttps options (Some postData) timeout with
      | TimerFired => failure "Webhook timeout"
      | Responded res => webhook_response res
      | RequestError message => failure ("Webhook execution failed: " +:+ message)
      end
  end.

End Dispatch.

(** *** The executor *)

Definition cacheKey (connectorId action : string) (params : JsValue)
    : Completion string :=
  json ← JSON_stringify params;
  Normal (connectorId +:+ ":" +:+ action +:+ ":" +:+ show_json json).

Definition set_headers (c : MCPConnector) (hs : JsObject) : MCPConnector :=
  let cfg := config c in
  {| conn_id := conn_id c; conn_name := conn_name c;
     conn_description := conn_description c; conn_type := conn_type c;
     config := {| endpoint := endpoint cfg; apiKey := apiKey cfg;
                  command := command cfg; filePath := filePath cfg;
                  connectionString := connectionString cfg;
                  webhookUrl := webhookUrl cfg; headers := Some hs;
                  timeout := timeout cfg; retries := retries cfg;
                  authentication := authentication cfg |};
     enabled := enabled c; priority := priority c |}.

(** The [switch (connector.type)] of [executeConnector]: the envelope or the
    exception of the strategy, the connector map afterwards, and the name
    of the strategy that ran. Only the api strategy writes to the object it
    was given: the headers it worked on are the stored ones whenever the
    connector has any. *)
Definition dispatch (env : Env) (st : State) (connectorId : string)
    (connector : MCPConnector) (action : string) (params : JsValue)
    (context : option MCPContext)
    : Completion MCPResponse * gmap string MCPConnector * list Effect :=
  let ty := conn_type connector in
  if decide (ty = "api") then
    let '(r, hs) := executeAPIConnector env connector action params in
    (r,
     match headers (config connector) with
     | Some _ => <[connectorId := set_headers connector hs]> (connectors st)
     | None => connectors st
     end,
     [Dispatch "api"])
  else if decide (ty = "cli") then
    (executeCLIConnector env connector action params context,
     connectors st, [Dispatch "cli"])
  else if decide (ty = "file") then
    (Normal (executeFileConnector env connector action params),
     connectors st, [Dispatch "file"])
  else if decide (ty = "database") then
    (Normal (executeDatabaseConnector connector action params),
     connectors st, [Dispatch "database"])
  else if decide (ty = "webhook") then
    (Normal (executeWebhookConnector env connector action params context),
     connectors st, [Dispatch "webhook"])
  else
    (Normal (failure ("Unsupported connector type: " +:+ ty)), connectors st, []).

Definition with_duration (r : MCPResponse) (d : Z) : MCPResponse :=
  {| success := success r; data := data r; error := error r;
     metadata := metadata r; cached := cached r; duration := Some d |}.

(** [{ ...r, cached: true }] *)
Definition served_from_cache (r : MCPResponse) : MCPResponse :=
  {| success := success r; data := data r; error := error r;
     metadata := metadata r; cached := Some true; duration := duration r |}.

(** [params: any = {}] *)
Definition default_params (params : JsValue) : JsValue :=
  match params with
  | JUndefined => JObj []
  | _ => params
  end.

(** [cached && Date.now() - cached.timestamp < 60000] *)
Definition fresh (env : Env) (cached : option CacheEntry) : option CacheEntry :=
  match cached with
  | Some c => if now_lookup env - timestamp c <? 60000 then Some c else None
  | None => None
  end.

Definition executeConnector (env : Env) (st : State) (connectorId action : string)
    (params : JsValue) (context : option MCPContext)
    : Completion MCPResponse * State * list Effect :=
  let params := default_params params in
  match connectors st !! connectorId with
  | None =>
      (Normal (failure ("Connector '" +:+ connectorId +:+ "' not found")), st, [])
  | Some connector =>
      if negb (enabled connector) then
        (Normal (failure ("Connector '" +:+ connectorId +:+ "' is disabled")), st, [])
      else
        match cacheKey connectorId action params with
        | Throw e => (Throw e, st, [])
        | Normal key =>
            match fresh env (responseCache st !! key) with
            | Some hit =>
                (Normal (served_from_cache (response hit)), st, [CacheGet key])
            | None =>
                let startTime := now_start env in
                let message := "Executing connector " +:+ connectorId +:+
                               " with action " +:+ action in
                let '(r, conns, ran) :=
                  dispatch env st connectorId connector action params context in
                match r with
                | Normal r0 =>
                    let r1 := with_duration r0 (now_end env - startTime) in
                    if success r1 then
                      (Normal r1,
                       {| connectors := conns; workflows := workflows st;
                          responseCache :=
                            <[key := {| response := r1; timestamp := now_store env |}]>
                              (responseCache st) |},
                       [CacheGet key; Log message] ++ ran ++ [CacheSet key])
                    else
                      (Normal r1,
                       {| connectors := conns; workflows := workflows st;
                          responseCache := responseCache st |},
                       [CacheGet key; Log message] ++ ran)
                | Throw e =>
                    (Normal {| success := false; data := None;
                               error := Some ("Connector execution failed: " +:+ e);
                               metadata := None; cached := None;
                               duration := Some (now_end env - startTime) |},
                     {| connectors := conns; workflows := workflows st;
                        responseCache := responseCache st |},
                     [CacheGet key; Log message] ++ ran)
                end
            end
        end
  end.

(** *** Sequences of calls *)

Record Call := {
  call_env : Env;
  call_connectorId : string;
  call_action : string;
  call_params : JsValue;
  call_context : option MCPContext
}.

Definition call (st : State) (c : Call) : Completion MCPResponse * State * list Effect :=
  executeConnector (call_env c) st (call_connectorId c) (call_action c)
    (call_params c) (call_context c).

Definition after_call (st : State) (c : Call) : State := (call st c).1.2.

Definition after_calls (st : State) (cs : list Call) : State := foldl after_call st cs.

(** [toggleConnector] *)
Definition toggleConnector (st : State) (connectorId : string) : State :=
  match connectors st !! connectorId with
  | Some c =>
      {| connectors :=
           <[connectorId :=
               {| conn_id := conn_id c; conn_name := conn_name c;
                  conn_description := conn_description c; conn_type := conn_type c;
                  config := config c; enabled := negb (enabled c);
                  priority := priority c |}]> (connectors st);
         workflows := workflows st; responseCache := responseCache st |}
  | None => st
  end.

(** The GitHub connector of [loadBuiltinConnectors]. *)
Definition github : MCPConnector :=
  {| conn_id := "github"; conn_name := "GitHub API";
     conn_description := "GitHub repository and issue management";
     conn_type := "api";
     config := {| endpoint := Some "https://api.github.com"; apiKey := None;
                  command := None; filePath := None; connectionString := None;
                  webhookUrl := None;
                  headers := Some [("Accept", JStr "application/vnd.github.v3+json");
                                   ("User-Agent", JStr "Neon-Agent")];
                  timeout := Some 10000; retries := Some 3;
                  authentication := None |};
     enabled := true; priority := 100 |}.

(** *** Predicates on states, envelopes and parameters *)

(** Every entry of the response cache holds a successful envelope. *)
Definition cache_sound (st : State) : Prop :=
  ∀ key e, responseCache st !! key = Some e → success (response e) = true.

(** A failed envelope says why. *)
Definition explains_failure (r : MCPResponse) : Prop :=
  success r = false → is_Some (error r).

(** The response carries a status code that is a number other than 0. *)
Definition has_status (res : IncomingMessage) : Prop :=
  ∃ n, statusCode res = Some n ∧ n ≠ 0.

Definition responses_have_status (env : Env) : Prop :=
  ∀ https options body timeout res,
    request env https options body timeout = Responded res → has_status res.

(** Two parameter objects are equal as key-value maps. *)
Definition same_map (p q : JsObject) : Prop :=
  (list_to_map p : gmap string JsValue) = list_to_map q.

End Hub.

(** ** The workflow engine *)

Module Engine.
Import Js Hub.

(** One element of [results]. *)
Record StepEntry := {
  stepId : string;
  stepName : string;
  result : MCPResponse
}.

(** The envelope of [executeWorkflow]: an [MCPResponse] whose [data], when
    present, is [{ workflowResults }] and whose [metadata], when present,
    is [{ workflow }]. *)
Record WorkflowResponse := {
  wr_success : bool;
  wr_error : option string;
  workflowResults : option (list StepEntry);
  wr_workflow : option string
}.

(** What one turn of the [while] loop meets outside the engine: the world of
    its connector call, the AI provider, and the evaluation of
    [Function('context', `with(context) { return ${condition}; }`)(context)]
    on [{ variables, results, lastResult }], taken to leave [variables] and
    [results] as they are. Module [Live] below is the engine without that
    assumption. *)
Record StepEnv := {
  conn_env : Env;
  getCodeCompletion : string → string → string → Completion JsValue;
  evaluate : string → JsValue → list StepEntry → Completion JsValue
}.

Definition evaluateCondition (senv : StepEnv) (condition : string)
    (variables : JsValue) (results : list StepEntry) : JsValue :=
  match evaluate senv condition variables results with
  | Normal v => v
  | Throw _ => JBool false
  end.

(** Truthiness of an optional string ([!step.connectorId], [step.condition
    || 'true'], [while (currentStepId)]). *)
Definition nonempty (o : option string) : option string :=
  match o with
  | Some s => if bool_decide (s = "") then None else Some s
  | None => None
  end.

Definition is_required (step : WorkflowStep) : bool := default false (required step).

(** [workflow.steps.find(s => s.id === currentStepId)] *)
Definition find_step (w : MCPWorkflow) (currentStepId : string) : option WorkflowStep :=
  List.find (fun s => bool_decide (step_id s = currentStepId)) (steps w).

(** [workflow.steps.findIndex(s => s.id === currentStepId)] *)
Fixpoint findIndex (l : list WorkflowStep) (currentStepId : string) : Z :=
  match l with
  | [] => -1
  | s :: r =>
      if bool_decide (step_id s = currentStepId) then 0
      else let i := findIndex r currentStepId in if i <? 0 then -1 else i + 1
  end.

(** [workflow.steps[i]?.id] *)
Definition id_at (w : MCPWorkflow) (i : Z) : option string :=
  if i <? 0 then None else step_id <$> (steps w !! Z.to_nat i).

Definition entry (step : WorkflowStep) (stepResult : MCPResponse) : StepEntry :=
  {| stepId := step_id step; stepName := step_name step; result := stepResult |}.

(** How one turn of the loop ends: round again, or [return]. *)
Inductive Turn :=
| Continue (results : list StepEntry) (currentStepId : option string) (st : State)
| Return (r : WorkflowResponse) (st : State).

(** The code after the [switch]: push, the halting rule, the move to the
    next position. *)
Definition after_switch (w : MCPWorkflow) (results : list StepEntry)
    (currentStepId : string) (step : WorkflowStep) (stepResult : MCPResponse)
    (st : State) : Turn :=
  let results := results ++ [entry step stepResult] in
  if negb (success stepResult) && is_required step then
    Return {| wr_success := false;
              wr_error := Some ("Required step '" +:+ step_name step +:+
                                "' failed: " +:+ default "undefined" (error stepResult));
              workflowResults := Some results;
              wr_workflow := None |} st
  else
    let currentIndex := findIndex (steps w) currentStepId in
    Continue results (id_at w (currentIndex + 1)) st.

(** The [catch] of the loop body. *)
Definition caught (results : list StepEntry) (step : WorkflowStep) (e : string)
    (st : State) : Turn :=
  Return {| wr_success := false;
            wr_error := Some ("Workflow execution failed at step '" +:+
                              step_name step +:+ "': " +:+ e);
            workflowResults := Some results;
            wr_workflow := None |} st.

(** How the [switch (step.type)] is left: with a [stepResult] ([break]),
    by the [continue] of the condition case, which has pushed its own entry
    and chosen the next step id, or by an exception. *)
Inductive Switched :=
| Result (stepResult : MCPResponse) (st : State)
| Navigate (results : list StepEntry) (currentStepId : option string) (st : State)
| Thrown (e : string) (st : State).

Definition switch (senv : StepEnv) (st : State) (w : MCPWorkflow)
    (context : MCPContext) (results : list StepEntry) (step : WorkflowStep)
    : Switched :=
  let ty := step_type step in
  if decide (ty = "connector") then
    match nonempty (connectorId step) with
    | None => Result (failure "No connector specified") st
    | Some cid =>
        match executeConnector (conn_env senv) st cid "run" (variables w) (Some context) with
        | (Normal stepResult, st', _) => Result stepResult st'
        | (Throw e, st', _) => Thrown e st'
        end
    end
  else if decide (ty = "ai") then
    match nonempty (prompt step) with
    | None => Result (failure "No prompt specified") st
    | Some p =>
        match getCodeCompletion senv p "Workflow automation context" "javascript" with
        | Normal aiResponse => Result (succeed (JObj [("response", aiResponse)])) st
        | Throw e => Result (failure ("AI step failed: " +:+ e)) st
        end
    end
  else if decide (ty = "condition") then
    let conditionResult :=
      evaluateCondition senv (default "true" (nonempty (condition step)))
        (variables w) results in
    let stepResult := succeed (JObj [("result", conditionResult)]) in
    Navigate (results ++ [entry step stepResult])
      (if truthy conditionResult then onSuccess step else onFailure step) st
  else if decide (ty = "user") then
    Result (succeed (JObj [("userInput", JStr "approved")])) st
  else
    Result (failure ("Unknown step type: " +:+ ty)) st.

(** The body of the [while] loop for the step found. *)
Definition turn (senv : StepEnv) (st : State) (w : MCPWorkflow)
    (context : MCPContext) (results : list StepEntry)
    (currentStepId : string) (step : WorkflowStep) : Turn :=
  match switch senv st w context results step with
  | Result stepResult st' => after_switch w results currentStepId step stepResult st'
  | Navigate results' next st' => Continue results' next st'
  | Thrown e st' => caught results step e st'
  end.

(** The result log a turn leaves behind. *)
Definition turn_results (t : Turn) : option (list StepEntry) :=
  match t with
  | Continue results _ _ => Some results
  | Return r _ => workflowResults r
  end.

Definition completed (w : MCPWorkflow) (results : list StepEntry) : WorkflowResponse :=
  {| wr_success := true; wr_error := None;
     workflowResults := Some results; wr_workflow := Some (wf_name w) |}.

(** The [while (currentStepId)] loop. Turn [k] of the loop meets [world k].
    The loop has no bound of its own (a condition step may point back), so
    the model takes fuel and answers [None] when it runs out. Next to the
    envelope and the state it returns the steps it ran, in order. *)
Fixpoint loop (fuel : nat) (world : nat → StepEnv) (k : nat) (w : MCPWorkflow)
    (context : MCPContext) (st : State) (results : list StepEntry)
    (ran : list WorkflowStep) (currentStepId : option string)
    : option (WorkflowResponse * State * list WorkflowStep) :=
  match nonempty currentStepId with
  | None => Some (completed w results, st, ran)
  | Some cur =>
      match find_step w cur with
      | None => Some (completed w results, st, ran)
      | Some step =>
          match fuel with
          | O => None
          | S fuel' =>
              match turn (world k) st w context results cur step with
              | Continue results' next st' =>
                  loop fuel' world (S k) w context st' results' (ran ++ [step]) next
              | Return r st' => Some (r, st', ran ++ [step])
              end
          end
      end
  end.

(** The same step with another [required] flag. *)
Definition with_required (step : WorkflowStep) (flag : option bool) : WorkflowStep :=
  {| step_id := step_id step; step_name := step_name step;
     step_type := step_type step; connectorId := connectorId step;
     prompt := prompt step; condition := condition step;
     onSuccess := onSuccess step; onFailure := onFailure step;
     step_timeout := step_timeout step; required := flag |}.

Definition wf_failure (message : string) : WorkflowResponse :=
  {| wr_success := false; wr_error := Some message;
     workflowResults := None; wr_workflow := None |}.

Definition executeWorkflow (fuel : nat) (world : nat → StepEnv) (st : State)
    (workflowId : string) (context : MCPContext)
    : option (WorkflowResponse * State * list WorkflowStep) :=
  match workflows st !! workflowId with
  | None => Some (wf_failure ("Workflow '" +:+ workflowId +:+ "' not found"), st, [])
  | Some w =>
      if negb (wf_enabled w) then
        Some (wf_failure ("Workflow '" +:+ workflowId +:+ "' is disabled"), st, [])
      else
        loop fuel world 0%nat w context st [] [] (id_at w 0)
  end.


End Engine.

(** ** The workflow engine with condition expressions that write *)

Module Live.
Import Js Hub Engine.

(** What the evaluation of a condition expression leaves behind. The
    expression runs inside [with(context)] on [{ variables, results,
    lastResult }], where [variables] is the object [workflow.variables] of
    the registered workflow, [results] is the array of the run and the
    envelopes in it may be objects that the response cache holds as well.
    So next to its value (or the exception) an evaluation hands back the
    three as it left them. Which envelopes the log and the cache share is
    not tracked: an evaluation may hand back any cache, which is more than
    the program allows. The connectors and the steps of the workflow are
    out of its reach, and it is taken to leave the built-in objects of the
    language as they are. *)
Record Evaluated := {
  ev_value : Completion JsValue;
  ev_results : list StepEntry;
  ev_variables : JsValue;
  ev_cache : gmap string CacheEntry
}.

(** What one turn of the loop meets outside the engine, with the evaluation
    of [Function('context', `with(context) { return ${condition}; }`)(context)]
    as a function of the expression and of what it can reach. *)
Record LiveEnv := {
  live_conn_env : Env;
  live_getCodeCompletion : string → string → string → Completion JsValue;
  live_evaluate : string → JsValue → list StepEntry → gmap string CacheEntry → Evaluated
}.

(** [evaluateCondition]: the value of the expression, [false] when the
    evaluation throws. *)
Definition evaluateCondition (lenv : LiveEnv) (condition : string)
    (variables : JsValue) (results : list StepEntry)
    (cache : gmap string CacheEntry) : JsValue :=
  match ev_value (live_evaluate lenv condition variables results cache) with
  | Normal v => v
  | Throw _ => JBool false
  end.

(** The same workflow with [variables] as the evaluation left it. *)
Definition with_variables (w : MCPWorkflow) (v : JsValue) : MCPWorkflow :=
  {| wf_id := wf_id w; wf_name := wf_name w; wf_description := wf_description w;
     triggers := triggers w; steps := steps w; variables := v;
     wf_enabled := wf_enabled w |}.

(** The hub after an evaluation: the workflow registered under
    [workflowId] is the object the run works on. *)
Definition after_evaluation (st : State) (workflowId : string) (w : MCPWorkflow)
    (ev : Evaluated) : State :=
  {| connectors := connectors st;
     workflows := <[workflowId := with_variables w (ev_variables ev)]> (workflows st);
     responseCache := ev_cache ev |}.

(** The [switch (step.type)], with the workflow as the turn leaves it. *)
Definition switch (lenv : LiveEnv) (st : State) (workflowId : string)
    (w : MCPWorkflow) (context : MCPContext) (results : list StepEntry)
    (step : WorkflowStep) : Switched * MCPWorkflow :=
  let ty := step_type step in
  if decide (ty = "connector") then
    match nonempty (connectorId step) with
    | None => (Result (failure "No connector specified") st, w)
    | Some cid =>
        match executeConnector (live_conn_env lenv) st cid "run" (variables w)
                (Some context) with
        | (Normal stepResult, st', _) => (Result stepResult st', w)
        | (Throw e, st', _) => (Thrown e st', w)
        end
    end
  else if decide (ty = "ai") then
    match nonempty (prompt step) with
    | None => (Result (failure "No prompt specified") st, w)
    | Some p =>
        match live_getCodeCompletion lenv p "Workflow automation context" "javascript" with
        | Normal aiResponse => (Result (succeed (JObj [("response", aiResponse)])) st, w)
        | Throw e => (Result (failure ("AI step failed: " +:+ e)) st, w)
        end
    end
  else if decide (ty = "condition") then
    let expression := default "true" (nonempty (condition step)) in
    let ev := live_evaluate lenv expression (variables w) results (responseCache st) in
    let conditionResult :=
      evaluateCondition lenv expression (variables w) results (responseCache st) in
    let stepResult := succeed (JObj [("result", conditionResult)]) in
    (Navigate (ev_results ev ++ [entry step stepResult])
       (if truthy conditionResult then onSuccess step else onFailure step)
       (after_evaluation st workflowId w ev),
     with_variables w (ev_variables ev))
  else if decide (ty = "user") then
    (Result (succeed (JObj [("userInput", JStr "approved")])) st, w)
  else
    (Result (failure ("Unknown step type: " +:+ ty)) st, w).

(** The body of the [while] loop for the step found. *)
Definition turn (lenv : LiveEnv) (st : State) (workflowId : string)
    (w : MCPWorkflow) (context : MCPContext) (results : list StepEntry)
    (currentStepId : string) (step : WorkflowStep) : Turn * MCPWorkflow :=
  match switch lenv st workflowId w context results step with
  | (Result stepResult st', w') =>
      (after_switch w' results currentStepId step stepResult st', w')
  | (Navigate results' next st', w') => (Continue results' next st', w')
  | (Thrown e st', w') => (caught results step e st', w')
  end.

(** The [while (currentStepId)] loop; turn [k] meets [world k]. *)
Fixpoint loop (fuel : nat) (world : nat → LiveEnv) (k : nat) (workflowId : string)
    (w : MCPWorkflow) (context : MCPContext) (st : State) (results : list StepEntry)
    (ran : list WorkflowStep) (currentStepId : option string)
    : option (WorkflowResponse * State * list WorkflowStep) :=
  match nonempty currentStepId with
  | None => Some (completed w results, st, ran)
  | Some cur =>
      match find_step w cur with
      | None => Some (completed w results, st, ran)
      | Some step =>
          match fuel with
          | O => None
          | S fuel' =>
              match turn (world k) st workflowId w context results cur step with
              | (Continue results' next st', w') =>
                  loop fuel' world (S k) workflowId w' context st' results'
                    (ran ++ [step]) next
              | (Return r st', _) => Some (r, st', ran ++ [step])
              end
          end
      end
  end.

Definition executeWorkflow (fuel : nat) (world : nat → LiveEnv) (st : State)
    (workflowId : string) (context : MCPContext)
    : option (WorkflowResponse * State * list WorkflowStep) :=
  match workflows st !! workflowId with
  | None => Some (wf_failure ("Workflow '" +:+ workflowId +:+ "' not found"), st, [])
  | Some w =>
      if negb (wf_enabled w) then
        Some (wf_failure ("Workflow '" +:+ workflowId +:+ "' is disabled"), st, [])
      else
        loop fuel world 0%nat workflowId w context st [] [] (id_at w 0)
  end.


(** The world of a turn as the pure engine sees it. *)
Definition plain (lenv : LiveEnv) : StepEnv :=
  {| conn_env := live_conn_env lenv;
     getCodeCompletion := live_getCodeCompletion lenv;
     evaluate := fun condition variables results =>
       ev_value (live_evaluate lenv condition variables results ∅) |}.


(** A world of the pure engine as a world of this one: evaluations that
    leave everything as they found it. *)
Definition calm (senv : StepEnv) : LiveEnv :=
  {| live_conn_env := conn_env senv;
     live_getCodeCompletion := getCodeCompletion senv;
     live_evaluate := fun condition variables results cache =>
       {| ev_value := evaluate senv condition variables results;
          ev_results := results; ev_variables := variables; ev_cache := cache |} |}.



End Live.

(** ** The registry, the cache sweep and the introspection methods *)

Module Registry.
Import Js Hub.

(** A parsed configuration: [config.connectors] and [config.workflows] are
    arrays when they are there. *)
Record Config := {
  cfg_connectors : option (list MCPConnector);
  cfg_workflows : option (list MCPWorkflow)
}.

(** [processConnectorConfig]: each definition is [set] under its own id, in
    array order. *)
Definition processConnectorConfig (st : State) (config : Config) : State :=
  {| connectors :=
       foldl (fun m c => <[conn_id c := c]> m) (connectors st)
         (default [] (cfg_connectors config));
     workflows :=
       foldl (fun m w => <[wf_id w := w]> m) (workflows st)
         (default [] (cfg_workflows config));
     responseCache := responseCache st |}.

Definition builtin (id name description type : string) (cfg : MCPConnectorConfig)
    (on : bool) (prio : Z) : MCPConnector :=
  {| conn_id := id; conn_name := name; conn_description := description;
     conn_type := type; config := cfg; enabled := on; priority := prio |}.

(** [{ timeout, retries }] and nothing else. *)
Definition bare_config (t r : Z) : MCPConnectorConfig :=
  {| endpoint := None; apiKey := None; command := None; filePath := None;
     connectionString := None; webhookUrl := None; headers := None;
     timeout := Some t; retries := Some r; authentication := None |}.

Definition jira : MCPConnector :=
  builtin "jira" "Jira API" "Jira issue tracking and project management" "api"
    (bare_config 15000 2) false 90.

Definition slack : MCPConnector :=
  builtin "slack" "Slack Webhook" "Send notifications to Slack channels" "webhook"
    (bare_config 5000 2) false 80.

Definition docker_cli : MCPConnector :=
  builtin "docker" "Docker CLI" "Docker container management" "cli"
    {| endpoint := None; apiKey := None; command := Some "docker"; filePath := None;
       connectionString := None; webhookUrl := None; headers := None;
       timeout := Some 30000; retries := Some 1; authentication := None |}
    false 70.

Definition database : MCPConnector :=
  builtin "database" "Database Query" "Execute database queries" "database"
    (bare_config 20000 2) false 60.

Definition builtins : list MCPConnector := [github; jira; slack; docker_cli; database].

(** [loadBuiltinConnectors]: five [set]s under fixed ids. *)
Definition loadBuiltinConnectors (st : State) : State :=
  {| connectors :=
       <["database" := database]> (<["docker" := docker_cli]> (<["slack" := slack]>
         (<["jira" := jira]> (<["github" := github]> (connectors st)))));
     workflows := workflows st;
     responseCache := responseCache st |}.

(** [clearConnectors]: both registries are emptied and the built-ins loaded
    again; the response cache is not touched. *)
Definition clearConnectors (st : State) : State :=
  loadBuiltinConnectors
    {| connectors := ∅; workflows := ∅; responseCache := responseCache st |}.

(** [enabledCount] of [updateStatusBar]. *)
Definition enabledCount (st : State) : nat :=
  base.size
    (filter (fun kv : string * MCPConnector => enabled kv.2 = true) (connectors st)).

(** The status bar shows the warning background when nothing is enabled. *)
Definition warningBackground (st : State) : bool := negb (0 <? Z.of_nat (enabledCount st)).

Definition maxAge : Z := 5 * 60 * 1000.

(** One run of the timer callback of [setupCacheCleanup], with [now] the
    reading of [Date.now()]: entries with [now - timestamp > maxAge] are
    deleted. *)
Definition sweep (now : Z) (st : State) : State :=
  {| connectors := connectors st; workflows := workflows st;
     responseCache :=
       filter (fun kv : string * CacheEntry => ¬ (now - timestamp kv.2 > maxAge))
         (responseCache st) |}.

(** [testConnector], with [root] the path of the first workspace folder (or
    the empty string) and [now] the reading of [Date.now()] put in the
    context. *)
Definition testConnector (env : Env) (st : State) (connectorId : string)
    (root : string) (now : Z) : Completion MCPResponse * State * list Effect :=
  match connectors st !! connectorId with
  | None =>
      (Normal (failure ("Connector '" +:+ connectorId +:+ "' not found")), st, [])
  | Some _ =>
      executeConnector env st connectorId "health" (JObj [])
        (Some {| workspaceRoot := root; currentFile := None; selectedText := None;
                 language := None; gitBranch := None; ctx_timestamp := now;
                 userRequest := "health-check" |})
  end.

(** *** Introspection

    The methods below start from [Array.from(map.values())]; they are
    modelled as functions of that array. *)

(** A value of [byType]: a count, or the text that [+] makes when what it
    reads is not a number. *)
Inductive Tally :=
| Count (n : Z)
| Text (s : string).

(** The own property of [byType] under a name. *)
Fixpoint own (byType : list (string * Tally)) (type : string) : option Tally :=
  match byType with
  | [] => None
  | (k, v) :: rest => if decide (k = type) then Some v else own rest type
  end.

(** [byType[type] = v] on an own property or a new one. *)
Fixpoint put (byType : list (string * Tally)) (type : string) (v : Tally)
    : list (string * Tally) :=
  match byType with
  | [] => [(type, v)]
  | (k, w) :: rest =>
      if decide (k = type) then (k, v) :: rest else (k, w) :: put rest type v
  end.

(** [(byType[type] || 0) + 1]. [byType] starts as the object literal [{}],
    so a name it does not own is looked up in [Object.prototype]:
    [inherited type] is the text that [+] makes of what is found there
    under [constructor], [toString], [__proto__] and the like, a function
    or an object and so a true value. *)
Definition next_tally (inherited : string → option string)
    (byType : list (string * Tally)) (type : string) : Tally :=
  match own byType type with
  | Some (Count n) => Count ((if n =? 0 then 0 else n) + 1)
  | Some (Text s) => if decide (s = "") then Count (0 + 1) else Text (s +:+ "1")
  | None =>
      match inherited type with
      | Some s => Text (s +:+ "1")
      | None => Count (0 + 1)
      end
  end.

(** [byType[type] = (byType[type] || 0) + 1]. An assignment under
    [__proto__] goes to the setter of [Object.prototype], which ignores a
    number or a string. The properties are kept in the order in which they
    were added, which is the order of enumeration unless a type is written
    like an array index. *)
Definition bump (inherited : string → option string)
    (byType : list (string * Tally)) (type : string) : list (string * Tally) :=
  if decide (type = "__proto__") then byType
  else put byType type (next_tally inherited byType type).

Record ConnectorStats := {
  cs_total : nat;
  cs_enabled : nat;
  cs_byType : list (string * Tally)
}.

Definition getConnectorStats (inherited : string → option string)
    (values : list MCPConnector) : ConnectorStats :=
  {| cs_total := length values;
     cs_enabled := length (List.filter enabled values);
     cs_byType := foldl (fun byType c => bump inherited byType (conn_type c)) [] values |}.

(** The number a value of [byType] stands for. *)
Definition count_of (v : Tally) : Z :=
  match v with
  | Count n => n
  | Text _ => 0
  end.

(** [[...new Set(xs)]]: every element once, in the order of first
    occurrence. *)
Fixpoint unique_from (seen : list string) (xs : list string) : list string :=
  match xs with
  | [] => []
  | x :: rest =>
      if decide (x ∈ seen) then unique_from seen rest
      else x :: unique_from (x :: seen) rest
  end.

Definition unique (xs : list string) : list string := unique_from [] xs.

Record WorkflowStats := {
  ws_total : nat;
  ws_enabled : nat;
  ws_triggers : list string
}.

Definition getWorkflowStats (values : list MCPWorkflow) : WorkflowStats :=
  {| ws_total := length values;
     ws_enabled := length (List.filter wf_enabled values);
     ws_triggers := unique (concat (triggers <$> values)) |}.

(** [sort((a, b) => b.priority - a.priority)]: the comparator is negative
    exactly when [a] has the larger priority. The sort of the language is
    stable, and a stable sort has one possible result: insertion from the
    right, each element placed before the first one whose priority is not
    larger than its own. *)
Fixpoint place (c : MCPConnector) (sorted : list MCPConnector) : list MCPConnector :=
  match sorted with
  | [] => [c]
  | d :: rest =>
      if priority d <=? priority c then c :: d :: rest else d :: place c rest
  end.

Definition listConnectors (values : list MCPConnector) : list MCPConnector :=
  foldr place [] values.

(** [connector.enabled = !connector.enabled] *)
Definition flip (c : MCPConnector) : MCPConnector :=
  {| conn_id := conn_id c; conn_name := conn_name c;
     conn_description := conn_description c; conn_type := conn_type c;
     config := config c; enabled := negb (enabled c); priority := priority c |}.

(** The definition that a list of definitions leaves under id [k]: the
    last one with that id. *)
Definition last_with_id (k : string) (cs : list MCPConnector) : option MCPConnector :=
  last (filter (fun c => conn_id c = k) cs).

(** A connector definition with its configured headers left out. *)
Definition sans_headers (c : MCPConnector) : MCPConnector :=
  let cfg := config c in
  {| conn_id := conn_id c; conn_name := conn_name c;
     conn_description := conn_description c; conn_type := conn_type c;
     config := {| endpoint := endpoint cfg; apiKey := apiKey cfg;
                  command := command cfg; filePath := filePath cfg;
                  connectionString := connectionString cfg;
                  webhookUrl := webhookUrl cfg; headers := None;
                  timeout := timeout cfg; retries := retries cfg;
                  authentication := authentication cfg |};
     enabled := enabled c; priority := priority c |}.

(** The action is none of those the strategy of the connector knows. *)
Definition unsupported (c : MCPConnector) (action : string) : Prop :=
  (conn_type c = "api" ∧ action ∉ ["get"; "post"; "put"; "delete"]) ∨
  (conn_type c = "file" ∧ action ∉ ["read"; "write"; "append"; "exists"; "stat"]) ∨
  (conn_type c = "database" ∧ action ∉ ["query"; "schema"]).

(** The error text of the [default] branch of the three strategies. *)
Definition unsupported_message (c : MCPConnector) (action : string) : string :=
  "Unsupported " +:+
  (if decide (conn_type c = "api") then "API" else conn_type c) +:+
  " action: " +:+ action.

(** The property of [params] that the strategy reads first for the action,
    if it reads any. *)
Definition first_read (c : MCPConnector) (action : string) : option string :=
  let ty := conn_type c in
  if decide (ty = "api") then
    if decide (action ∈ ["get"; "post"; "put"; "delete"]) then Some "path" else None
  else if decide (ty = "cli") then
    if decide (action = "version") then None else Some "args"
  else if decide (ty = "file") then
    if decide (action ∈ ["read"; "write"; "append"; "exists"; "stat"])
    then Some "path" else None
  else if decide (ty = "database") then
    if decide (action = "query") then Some "sql" else None
  else None.

(** The text put before a caught error: the api and cli strategies read
    [params] outside their [try], so the [catch] of [executeConnector] gets
    the error; file and database catch it themselves. *)
Definition catch_prefix (c : MCPConnector) : string :=
  if decide (conn_type c = "file") then "File operation failed: "
  else if decide (conn_type c = "database") then "Database operation failed: "
  else "Connector execution failed: ".

(** The same hub with one cache entry removed. *)
Definition forget (key : string) (st : State) : State :=
  {| connectors := connectors st; workflows := workflows st;
     responseCache := delete key (responseCache st) |}.

End Registry.

(** ** Shapes of workflows *)

Module Shapes.
Import Js Hub Engine.

(** A workflow without branching: the step ids are distinct and not empty,
    and no step is a condition step. *)
Definition straight_line (w : MCPWorkflow) : Prop :=
  NoDup (step_id <$> steps w) ∧
  ∀ s, s ∈ steps w → step_id s ≠ "" ∧ step_type s ≠ "condition".

(** The step id that a condition step hands to the loop in world [senv]
    with the log [results]. *)
Definition chosen (senv : StepEnv) (w : MCPWorkflow) (results : list StepEntry)
    (step : WorkflowStep) : option string :=
  if truthy (evaluateCondition senv (default "true" (nonempty (condition step)))
               (variables w) results)
  then onSuccess step else onFailure step.

(** The parameters of a connector step can be written as a cache key. *)
Definition variables_serialize (w : MCPWorkflow) : Prop :=
  ∃ json, JSON_stringify (default_params (variables w)) = Normal json.

End Shapes.

(** ** Sample worlds and registries *)

Module Samples.
Import Js Hub Engine.

Definition LF : string := String (Ascii.ascii_of_N 10) "".

Definition api_github_com : URL :=
  {| protocol := "https:"; hostname := "api.github.com"; port := "";
     pathname := "/ping"; search := "" |}.

(** A world at clock reading [t] in which every request settles as [http],
    every command as [exec], and the file system refuses everything. *)
Definition world_of (t : Z) (http : HttpOutcome) (exec : ExecOutcome) : Env :=
  {| now_lookup := t; now_start := t; now_payload := t;
     now_end := t + 7; now_store := t + 7;
     new_URL := fun _ => Normal api_github_com;
     JSON_parse := fun _ => Throw "SyntaxError: Unexpected end of JSON input";
     base64 := fun s => s;
     request := fun _ _ _ _ => http;
     execAsync := fun _ _ _ => exec;
     readFile := fun _ => Throw "Error: ENOENT";
     writeFile := fun _ _ => Throw "Error: EACCES";
     appendFile := fun _ _ => Throw "Error: EACCES";
     access := fun _ => Throw "Error: ENOENT";
     stat := fun _ => Throw "Error: ENOENT" |}.

Definition ok_200 (body : string) : HttpOutcome :=
  Responded {| statusCode := Some 200; statusMessage := "OK";
               res_headers := JObj []; res_data := body |}.

(** A response whose [statusCode] is [undefined], as the type of
    [IncomingMessage.statusCode] allows. *)
Definition no_status (body : string) : HttpOutcome :=
  Responded {| statusCode := None; statusMessage := "";
               res_headers := JObj []; res_data := body |}.

(** A response whose status line carries the code 0. *)
Definition zero_status (body : string) : HttpOutcome :=
  Responded {| statusCode := Some 0; statusMessage := "Zero";
               res_headers := JObj []; res_data := body |}.

Definition no_exec : ExecOutcome := ExecRejected "spawn ENOENT" JUndefined JUndefined.

Definition docker (on : bool) : MCPConnector :=
  {| conn_id := "docker"; conn_name := "Docker CLI";
     conn_description := "Docker container management";
     conn_type := "cli";
     config := {| endpoint := None; apiKey := None; command := Some "docker";
                  filePath := None; connectionString := None; webhookUrl := None;
                  headers := None; timeout := Some 30000; retries := Some 1;
                  authentication := None |};
     enabled := on; priority := 70 |}.

Definition registry : State :=
  {| connectors := <["github" := github]> (<["docker" := docker false]> ∅);
     workflows := ∅;
     responseCache := ∅ |}.

Definition plain_step (id name type : string) : WorkflowStep :=
  {| step_id := id; step_name := name; step_type := type;
     connectorId := None; prompt := None; condition := None;
     onSuccess := None; onFailure := None; step_timeout := None;
     required := None |}.

Definition build : WorkflowStep :=
  {| step_id := "build"; step_name := "Build Image"; step_type := "connector";
     connectorId := Some "docker"; prompt := None; condition := None;
     onSuccess := None; onFailure := None; step_timeout := None;
     required := Some true |}.

Definition gate : WorkflowStep :=
  {| step_id := "gate"; step_name := "Deploy?"; step_type := "condition";
     connectorId := None; prompt := None; condition := Some "variables.deploy";
     onSuccess := Some "approve"; onFailure := Some "build";
     step_timeout := None; required := Some true |}.

Definition approve : WorkflowStep := plain_step "approve" "Approve" "user".

(** [gate] comes first and points forward to [approve] and back to
    [build]. *)
Definition gated : MCPWorkflow :=
  {| wf_id := "gated"; wf_name := "Gated Deploy"; wf_description := "";
     triggers := ["manual"]; steps := [gate; build; approve];
     variables := JObj [("deploy", JBool true)]; wf_enabled := true |}.

(** [build] comes first; its connector is switched off in [registry]. *)
Definition deploy : MCPWorkflow :=
  {| wf_id := "deploy"; wf_name := "Deploy"; wf_description := "";
     triggers := ["manual"]; steps := [build; approve];
     variables := JObj []; wf_enabled := true |}.

Definition hub : State :=
  {| connectors := connectors registry;
     workflows := <["gated" := gated]> (<["deploy" := deploy]> ∅);
     responseCache := ∅ |}.

Definition here : MCPContext :=
  {| workspaceRoot := "/work"; currentFile := None; selectedText := None;
     language := None; gitBranch := None; ctx_timestamp := 1000;
     userRequest := "deploy" |}.

(** A world for the engine in which every condition evaluates as [cond]. *)
Definition steady (cond : Completion JsValue) (k : nat) : StepEnv :=
  {| conn_env := world_of (1000 + Z.of_nat k) TimerFired no_exec;
     getCodeCompletion := fun _ _ _ => Throw "Error: no provider";
     evaluate := fun _ _ _ => cond |}.

Definition ping : JsValue := JObj [("path", JStr "/ping")].

Definition first_ping : Call :=
  {| call_env := world_of 1000 (ok_200 "{}") no_exec;
     call_connectorId := "github"; call_action := "get";
     call_params := ping; call_context := None |}.

(** The cache key of [first_ping]. *)
Definition ping_key : string :=
  "github:get:{" +:+ dquote +:+ "path" +:+ dquote +:+ ":" +:+
  dquote +:+ "/ping" +:+ dquote +:+ "}".

Definition docker_version : string := "Docker version 24.0.7" +:+ LF.

(** The run of [gated] in a world where the condition holds. *)
Definition gated_run : WorkflowResponse * State * list WorkflowStep :=
  (completed gated
     [entry gate (succeed (JObj [("result", JBool true)]));
      entry approve (succeed (JObj [("userInput", JStr "approved")]))],
   hub, [gate; approve]).

End Samples.

(** ** More sample registries *)

Module Fixtures.
Import Js Hub Engine Registry Samples.

(** Two connectors whose ids differ by a colon: a database connector
    [db:main] and a command-line connector [db]. *)
Definition db_main : MCPConnector :=
  builtin "db:main" "Main database" "" "database" (bare_config 20000 2) true 10.

Definition db_tool : MCPConnector :=
  builtin "db" "Database tool" "" "cli"
    {| endpoint := None; apiKey := None; command := Some "dbtool"; filePath := None;
       connectionString := None; webhookUrl := None; headers := None;
       timeout := None; retries := None; authentication := None |}
    true 20.

Definition colon_registry : State :=
  {| connectors := <["db:main" := db_main]> (<["db" := db_tool]> ∅);
     workflows := ∅; responseCache := ∅ |}.

(** A world with its own clock readings. *)
Definition at_times (lookup start finish store : Z) (http : HttpOutcome)
    (exec : ExecOutcome) : Env :=
  {| now_lookup := lookup; now_start := start; now_payload := start;
     now_end := finish; now_store := store;
     new_URL := new_URL (world_of 0 http exec);
     JSON_parse := JSON_parse (world_of 0 http exec);
     base64 := base64 (world_of 0 http exec);
     request := request (world_of 0 http exec);
     execAsync := execAsync (world_of 0 http exec);
     readFile := readFile (world_of 0 http exec);
     writeFile := writeFile (world_of 0 http exec);
     appendFile := appendFile (world_of 0 http exec);
     access := access (world_of 0 http exec);
     stat := stat (world_of 0 http exec) |}.

(** A workflow of three optional steps (a command, an AI call without
    provider, an approval) and a hub in which the docker connector is
    switched on. *)
Definition chores : MCPWorkflow :=
  {| wf_id := "chores"; wf_name := "Chores"; wf_description := "";
     triggers := ["manual"; "pre-commit"];
     steps := [with_required build None;
               {| step_id := "notes"; step_name := "Notes"; step_type := "ai";
                  connectorId := None; prompt := Some "Summarize";
                  condition := None; onSuccess := None; onFailure := None;
                  step_timeout := None; required := Some false |};
               approve];
     variables := JObj [("args", JStr "ps")]; wf_enabled := true |}.

Definition tooling : State :=
  {| connectors := connectors (toggleConnector registry "docker");
     workflows := <["chores" := chores]> ∅;
     responseCache := ∅ |}.

(** A condition step that points to itself on both sides. *)
Definition spin : WorkflowStep :=
  {| step_id := "spin"; step_name := "Wait"; step_type := "condition";
     connectorId := None; prompt := None; condition := Some "false";
     onSuccess := Some "spin"; onFailure := Some "spin";
     step_timeout := None; required := None |}.

Definition spinning : MCPWorkflow :=
  {| wf_id := "spinning"; wf_name := "Spinning"; wf_description := "";
     triggers := []; steps := [spin; approve]; variables := JObj [];
     wf_enabled := true |}.

(** Two approval steps with the same id, and a step after them. *)
Definition twins : MCPWorkflow :=
  {| wf_id := "twins"; wf_name := "Twins"; wf_description := "";
     triggers := []; steps := [approve; approve; build]; variables := JObj [];
     wf_enabled := true |}.

(** A condition step whose pointers name no step. *)
Definition lost : WorkflowStep :=
  {| step_id := "lost"; step_name := "Lost"; step_type := "condition";
     connectorId := None; prompt := None; condition := None;
     onSuccess := Some "nowhere"; onFailure := None;
     step_timeout := None; required := Some true |}.

Definition astray : MCPWorkflow :=
  {| wf_id := "astray"; wf_name := "Astray"; wf_description := "";
     triggers := []; steps := [lost; build]; variables := JObj [];
     wf_enabled := true |}.

(** A required connector step on the GitHub connector. *)
Definition fetch : WorkflowStep :=
  {| step_id := "fetch"; step_name := "Fetch"; step_type := "connector";
     connectorId := Some "github"; prompt := None; condition := None;
     onSuccess := None; onFailure := None; step_timeout := None;
     required := Some true |}.

Definition fetching : MCPWorkflow :=
  {| wf_id := "fetching"; wf_name := "Fetching"; wf_description := "";
     triggers := []; steps := [fetch; approve]; variables := JObj [];
     wf_enabled := true |}.

Definition studio : State :=
  {| connectors := connectors registry;
     workflows := <["spinning" := spinning]> (<["twins" := twins]>
                    (<["astray" := astray]> (<["fetching" := fetching]> ∅)));
     responseCache := ∅ |}.

(** The workflow [fetching] with a BigInt among its variables, which
    [JSON.stringify] refuses, and a hub that holds it. *)
Definition tallying : MCPWorkflow :=
  {| wf_id := "tallying"; wf_name := "Tallying"; wf_description := "";
     triggers := []; steps := [fetch; approve];
     variables := JObj [("count", JBigInt 1)]; wf_enabled := true |}.

Definition ledger : State :=
  {| connectors := connectors registry;
     workflows := <["tallying" := tallying]> ∅;
     responseCache := ∅ |}.






(** Two parameter objects with the same properties, listed in another
    order; the property [debug] holds [undefined] and is not written. *)
Definition paged : JsObject :=
  [("path", JStr "/ping"); ("debug", JUndefined); ("page", JNum 2)].

Definition paged_late : JsObject :=
  [("debug", JUndefined); ("path", JStr "/ping"); ("page", JNum 2)].

(** The cache key of both. *)
Definition paged_key : string :=
  "github:get:{" +:+ dquote +:+ "path" +:+ dquote +:+ ":" +:+
  dquote +:+ "/ping" +:+ dquote +:+ "," +:+ dquote +:+ "page" +:+ dquote +:+ ":2}".

(** What [Object.prototype] holds, as [+] writes it. *)
Definition object_prototype (name : string) : option string :=
  if decide (name = "__proto__") then Some "[object Object]"
  else if decide (name ∈ ["constructor"; "hasOwnProperty"; "isPrototypeOf";
                          "propertyIsEnumerable"; "toLocaleString"; "toString";
                          "valueOf"; "__defineGetter__"; "__defineSetter__";
                          "__lookupGetter__"; "__lookupSetter__"])
  then Some ("function " +:+ (if decide (name = "constructor") then "Object" else name) +:+
             "() { [native code] }")
  else None.

End Fixtures.

(** ** Checks of the JavaScript layer *)

Module JsFacts.
Import Js Samples.

Example stringify_demo :
  JSON_stringify (JObj [("a", JNum 1); ("u", JUndefined);
                        ("b", JArr [JStr "x"; JUndefined; JNum (-3)])])
  = Normal (Some ("{" +:+ dquote +:+ "a" +:+ dquote +:+ ":1," +:+
                  dquote +:+ "b" +:+ dquote +:+ ":[" +:+
                  dquote +:+ "x" +:+ dquote +:+ ",null,-3]}")).
Proof. vm_compute. reflexivity. Qed.

Example stringify_bigint :
  JSON_stringify (JObj [("n", JArr [JBigInt 10])]) = Throw bigint_error.
Proof. reflexivity. Qed.

Example trim_demo : trim (" " +:+ LF +:+ "a b" +:+ LF +:+ " ") = "a b".
Proof. vm_compute. reflexivity. Qed.

Example ToString_demo :
  ToString (JArr [JNum 1; JNull; JArr [JStr "x"; JBool true]]) = "1,,x,true".
Proof. vm_compute. reflexivity. Qed.

Lemma or_else_string s : or_else (JStr s) (JStr "") = JStr s.
Proof. unfold or_else. simpl. by case_bool_decide; subst. Qed.

End JsFacts.

(** ** Properties of the executor *)

Module HubFacts.
Import Js Hub Samples.

Lemma fresh_Some env cached hit :
  fresh env cached = Some hit →
  cached = Some hit ∧ now_lookup env - timestamp hit < 60000.
Proof.
  unfold fresh. destruct cached as [c|]; [|done].
  destruct (Z.ltb_spec (now_lookup env - timestamp c) 60000); [|done].
  intros [= ->]. done.
Qed.

Lemma fresh_hit env c :
  now_lookup env - timestamp c < 60000 → fresh env (Some c) = Some c.
Proof.
  intros H. unfold fresh.
  destruct (Z.ltb_spec (now_lookup env - timestamp c) 60000); [done | lia].
Qed.

(** The strategies leave the registry alone, except that the api strategy
    may replace the headers of the connector it ran. *)
Lemma dispatch_registry env st connectorId c action params context r conns ran :
  connectors st !! connectorId = Some c →
  dispatch env st connectorId c action params context = (r, conns, ran) →
  (conns = connectors st ∨
   ∃ hs, conn_type c = "api" ∧ is_Some (headers (config c)) ∧
         conns = <[connectorId := set_headers c hs]> (connectors st)) ∧
  (∀ e, e ∈ ran → ∃ s, e = Dispatch s).
Proof.
  intros Hc. unfold dispatch.
  assert (∀ s e, e ∈ [Dispatch s] → ∃ s', e = Dispatch s') as Hone.
  { intros s e ->%list_elem_of_singleton. eauto. }
  repeat case_decide.
  - destruct (executeAPIConnector _ _ _ _) as [r0 hs]. intros [= <- <- <-].
    split; [|by eauto].
    destruct (headers (config c)) eqn:Hh; [right|left; done].
    exists hs. eauto.
  - intros [= <- <- <-]. eauto.
  - intros [= <- <- <-]. eauto.
  - intros [= <- <- <-]. eauto.
  - intros [= <- <- <-]. eauto.
  - intros [= <- <- <-]. split; [by left|]. by intros e ?%elem_of_nil.
Qed.

Lemma dispatch_enabled env st connectorId c action params context r conns ran :
  connectors st !! connectorId = Some c →
  dispatch env st connectorId c action params context = (r, conns, ran) →
  ∃ c', conns !! connectorId = Some c' ∧ enabled c' = enabled c.
Proof.
  intros Hc Hd.
  destruct (dispatch_registry _ _ _ _ _ _ _ _ _ _ Hc Hd) as [[->|(hs & _ & _ & ->)] _].
  - eauto.
  - exists (set_headers c hs). by rewrite lookup_insert_eq.
Qed.

(** C7. Calling [executeConnector] on a connector that is registered but
    not enabled returns the failed envelope with the error
    [Connector '<id>' is disabled], whatever the action, the parameters, the
    context and the world; the state of the hub is as before and the call
    has no effect at all: no cache read, no dispatch, no cache write. *)
Theorem disabled_connector_is_rejected env st connectorId action params context c :
  connectors st !! connectorId = Some c →
  enabled c = false →
  executeConnector env st connectorId action params context =
    (Normal {| success := false; data := None;
               error := Some ("Connector '" +:+ connectorId +:+ "' is disabled");
               metadata := None; cached := None; duration := None |},
     st, []).
Proof.
  intros Hc Hoff. unfold executeConnector. by rewrite Hc, Hoff.
Qed.

Lemma disabled_connector_is_rejected_witness :
  executeConnector (world_of 1000 (ok_200 "{}") no_exec) registry "docker" "run"
    (JObj [("args", JStr "ps")]) None =
    (Normal {| success := false; data := None;
               error := Some "Connector 'docker' is disabled";
               metadata := None; cached := None; duration := None |},
     registry, []).
Proof.
  apply (disabled_connector_is_rejected _ registry "docker" _ _ _ (docker false));
    reflexivity.
Defined.

(** What a call does to the response cache: nothing, or one entry written
    for a successful envelope stamped with its duration. *)
Lemma executeConnector_cache env st connectorId action params context r st' fx :
  executeConnector env st connectorId action params context = (r, st', fx) →
  (responseCache st' = responseCache st ∧ (∀ key, CacheSet key ∉ fx)) ∨
  (∃ key r1,
      r = Normal r1 ∧ success r1 = true ∧
      duration r1 = Some (now_end env - now_start env) ∧
      cacheKey connectorId action (default_params params) = Normal key ∧
      (∀ key', CacheSet key' ∈ fx → key' = key) ∧
      (∃ c', connectors st' !! connectorId = Some c' ∧ enabled c' = true) ∧
      responseCache st' =
        <[key := {| response := r1; timestamp := now_store env |}]> (responseCache st)).
Proof.
  unfold executeConnector.
  destruct (connectors st !! connectorId) as [c|] eqn:Hc; cycle 1.
  { intros [= <- <- <-]. left. split; [done|]. by intros k ?%elem_of_nil. }
  destruct (enabled c) eqn:Hon; simpl; cycle 1.
  { intros [= <- <- <-]. left. split; [done|]. by intros k ?%elem_of_nil. }
  destruct (cacheKey _ _ _) as [key|e]; cycle 1.
  { intros [= <- <- <-]. left. split; [done|]. by intros k ?%elem_of_nil. }
  destruct (fresh env _) as [hit|].
  { intros [= <- <- <-]. left. split; [done|].
    by intros k [=]%list_elem_of_singleton. }
  destruct (dispatch _ _ _ _ _ _ _) as [[r0 conns] ran] eqn:Hd.
  destruct (dispatch_registry _ _ _ _ _ _ _ _ _ _ Hc Hd) as [_ Hran].
  assert (∀ k, CacheSet k ∉ [CacheGet key; Log ("Executing connector " +:+ connectorId +:+
                               " with action " +:+ action)] ++ ran) as Hno.
  { intros k [Hin|Hin]%elem_of_app.
    - apply elem_of_cons in Hin as [[=]|Hin].
      by apply list_elem_of_singleton in Hin.
    - by destruct (Hran _ Hin). }
  destruct r0 as [r0|e].
  - change (success (with_duration r0 (now_end env - now_start env)))
      with (success r0).
    destruct (success r0) eqn:Hs.
    + intros [= <- <- <-]. right. eexists key, _.
      repeat split; [done| |].
      * intros k Hin.
        apply elem_of_cons in Hin as [[=]|Hin].
        apply elem_of_cons in Hin as [[=]|Hin].
        apply elem_of_app in Hin as [Hin|Hin].
        { by destruct (Hran _ Hin). }
        apply list_elem_of_singleton in Hin. congruence.
      * destruct (dispatch_enabled _ _ _ _ _ _ _ _ _ _ Hc Hd) as (c' & ? & ?).
        exists c'. split; [done | congruence].
    + intros [= <- <- <-]. by left.
  - intros [= <- <- <-]. by left.
Qed.

Lemma executeConnector_sound env st connectorId action params context r st' fx :
  cache_sound st →
  executeConnector env st connectorId action params context = (r, st', fx) →
  cache_sound st'.
Proof.
  intros Hst He.
  destruct (executeConnector_cache _ _ _ _ _ _ _ _ _ He)
    as [[Heq _]|(key & r1 & _ & Hs & _ & _ & _ & _ & Heq)];
    intros k e; rewrite Heq; [by apply Hst|].
  rewrite lookup_insert. case_decide; [|by apply Hst].
  by intros [= <-].
Qed.

Lemma after_calls_sound st cs : cache_sound st → cache_sound (after_calls st cs).
Proof.
  revert st. induction cs as [|c cs IH]; intros st Hst; [done|].
  apply IH. unfold after_call, call.
  destruct (executeConnector _ _ _ _ _ _) as [[r st'] fx] eqn:He.
  by eapply executeConnector_sound.
Qed.

(** C5. Starting from an empty response cache, after any sequence of
    [executeConnector] calls every cached entry holds an envelope with
    [success = true]; and a call that returns a failed envelope (or throws)
    leaves the cache exactly as it found it, so it cannot make a later call
    a cache hit. *)
Theorem only_successes_are_cached st cs env connectorId action params context :
  responseCache st = ∅ →
  cache_sound (after_calls st cs) ∧
  (∀ r st' fx,
      executeConnector env (after_calls st cs) connectorId action params context
        = (r, st', fx) →
      (∀ r1, r = Normal r1 → success r1 = false) →
      responseCache st' = responseCache (after_calls st cs) ∧
      ∀ key, CacheSet key ∉ fx).
Proof.
  intros Hempty. split.
  - apply after_calls_sound. intros k e. by rewrite Hempty, lookup_empty.
  - intros r st' fx He Hfail.
    destruct (executeConnector_cache _ _ _ _ _ _ _ _ _ He)
      as [?|(key & r1 & -> & Hs & _)]; [done|].
    specialize (Hfail r1 eq_refl). congruence.
Qed.

Lemma triple_eta {A B C} (x : A * B * C) : x = (x.1.1, x.1.2, x.2).
Proof. by destruct x as [[??]?]. Qed.

Lemma only_successes_are_cached_witness :
  let calls :=
    [{| call_env := world_of 1000 (ok_200 "{}") no_exec;
        call_connectorId := "github"; call_action := "get";
        call_params := ping; call_context := None |}] in
  let st := after_calls registry calls in
  cache_sound st ∧
  responseCache
    (executeConnector (world_of 2000 TimerFired no_exec) st "github" "delete" ping None).1.2
  = responseCache st.
Proof.
  intros calls st.
  destruct (only_successes_are_cached registry calls (world_of 2000 TimerFired no_exec)
              "github" "delete" ping None eq_refl) as [Hsound Hkeep].
  split; [exact Hsound|].
  refine (proj1 (Hkeep _ _ _ (triple_eta _) _)).
  intros r1 Hr1. vm_compute in Hr1. by injection Hr1 as <-.
Defined.

(** C6. When a call of [executeConnector] stores its envelope in the cache
    and the same connector, action and parameters are asked for again less
    than 60 seconds after the entry was written, the second call is served
    from the cache: its envelope has the [data] and [error] of the stored
    one, the [duration] stamped by the first call, and [cached = true]; the
    hub is left as it was. *)
Theorem cache_round_trip env1 env2 st connectorId action params context1 context2
    r1 st1 fx1 key :
  executeConnector env1 st connectorId action params context1 = (Normal r1, st1, fx1) →
  CacheSet key ∈ fx1 →
  now_lookup env2 - now_store env1 < 60000 →
  ∃ r2,
    executeConnector env2 st1 connectorId action params context2
      = (Normal r2, st1, [CacheGet key]) ∧
    success r1 = true ∧
    data r2 = data r1 ∧ error r2 = error r1 ∧
    duration r2 = Some (now_end env1 - now_start env1) ∧
    cached r2 = Some true.
Proof.
  intros He1 Hset Hage.
  destruct (executeConnector_cache _ _ _ _ _ _ _ _ _ He1)
    as [[_ Hno]|(key0 & r & [= <-] & Hs & Hdur & Hkey & Honly & (c' & Hc' & Hon) & Hcache)].
  { by destruct (Hno key). }
  apply Honly in Hset as ->.
  exists (served_from_cache r1).
  split; [|by rewrite <- Hdur].
  unfold executeConnector.
  rewrite Hc', Hon, Hkey, Hcache, lookup_insert_eq. cbn [negb].
  by rewrite fresh_hit.
Qed.

Lemma cache_round_trip_witness :
  ∃ r2,
    executeConnector (world_of 2000 TimerFired no_exec) (after_call registry first_ping)
      "github" "get" ping None
      = (Normal r2, after_call registry first_ping, [CacheGet ping_key]) ∧
    data r2 = Some (JStr "{}") ∧ error r2 = None ∧
    duration r2 = Some 7 ∧ cached r2 = Some true.
Proof.
  edestruct (cache_round_trip (world_of 1000 (ok_200 "{}") no_exec)
               (world_of 2000 TimerFired no_exec) registry "github" "get" ping None None)
    as (r2 & Hcall & _ & Hdata & Herror & Hduration & Hcached).
  - reflexivity.
  - apply (list_elem_of_further _ _ _), (list_elem_of_further _ _ _),
      (list_elem_of_further _ _ _), (list_elem_of_here (CacheSet ping_key)).
  - vm_compute. reflexivity.
  - exists r2. repeat split; try assumption.
Defined.

(** *** Failed envelopes and their error *)

Lemma failure_explains message : explains_failure (failure message).
Proof. intros _. by eexists. Qed.

Lemma succeed_explains d : explains_failure (succeed d).
Proof. by intros [=]. Qed.

Lemma status_ok_or_bad res :
  has_status res → status_ok (statusCode res) = false → status_bad (statusCode res) = true.
Proof.
  intros (n & -> & Hn). simpl.
  destruct (Z.eqb_spec n 0); [done|].
  destruct (Z.ltb_spec n 400), (Z.leb_spec 400 n); (done || lia).
Qed.

Lemma api_response_explains env res :
  has_status res → explains_failure (api_response env res).
Proof.
  intros Hres Hfail. simpl in *. by rewrite (status_ok_or_bad _ Hres Hfail).
Qed.

Lemma webhook_response_explains res :
  has_status res → explains_failure (webhook_response res).
Proof.
  intros Hres Hfail. simpl in *. by rewrite (status_ok_or_bad _ Hres Hfail).
Qed.

Lemma executeAPIConnector_explains env c action params r hs :
  responses_have_status env →
  executeAPIConnector env c action params = (Normal r, hs) →
  explains_failure r.
Proof.
  intros Henv. unfold executeAPIConnector.
  destruct (build_request _ _ _ _) as [[[b|]|e] hs']; [| |done].
  - destruct (new_URL env _) as [u|e].
    + destruct (request env _ _ _ _) as [|res|m] eqn:Hreq; intros [= <- <-].
      * apply failure_explains.
      * eapply api_response_explains, Henv, Hreq.
      * apply failure_explains.
    + intros [= <- <-]. apply failure_explains.
  - intros [= <- <-]. apply failure_explains.
Qed.

Lemma executeCLIConnector_explains env c action params context r :
  executeCLIConnector env c action params context = Normal r → explains_failure r.
Proof.
  unfold executeCLIConnector.
  destruct (cli_command _ _ _) as [cmd|e]; [|done]. simpl.
  destruct (execAsync env _ _ _); intros [= <-].
  - apply succeed_explains.
  - intros _. by eexists.
Qed.

Lemma executeFileConnector_explains env c action params :
  explains_failure (executeFileConnector env c action params).
Proof.
  unfold executeFileConnector.
  destruct (file_action _ _ _ _) as [[d|]|e];
    auto using failure_explains, succeed_explains.
Qed.

Lemma executeDatabaseConnector_explains c action params :
  explains_failure (executeDatabaseConnector c action params).
Proof.
  unfold executeDatabaseConnector.
  repeat case_decide; try destruct (get_prop _ _);
    auto using failure_explains, succeed_explains.
Qed.

Lemma executeWebhookConnector_explains env c action params context :
  responses_have_status env →
  explains_failure (executeWebhookConnector env c action params context).
Proof.
  intros Henv. unfold executeWebhookConnector.
  destruct (_ ≫= _) as [[u postData]|e]; [|apply failure_explains].
  destruct (request env _ _ _ _) as [|res|m] eqn:Hreq.
  - apply failure_explains.
  - eapply webhook_response_explains, Henv, Hreq.
  - apply failure_explains.
Qed.

Lemma dispatch_explains env st connectorId c action params context r conns ran :
  responses_have_status env →
  dispatch env st connectorId c action params context = (Normal r, conns, ran) →
  explains_failure r.
Proof.
  intros Henv. unfold dispatch. repeat case_decide.
  - destruct (executeAPIConnector _ _ _ _) as [r0 hs] eqn:Hapi.
    intros [= -> <- <-]. by eapply executeAPIConnector_explains.
  - intros [= Hcli <- <-]. by eapply executeCLIConnector_explains.
  - intros [= <- <- <-]. apply executeFileConnector_explains.
  - intros [= <- <- <-]. apply executeDatabaseConnector_explains.
  - intros [= <- <- <-]. by apply executeWebhookConnector_explains.
  - intros [= <- <- <-]. apply failure_explains.
Qed.

(** In a world where every HTTP response carries a status code, and over a
    cache of successful envelopes, a failed envelope of [executeConnector]
    has its [error]. *)
Lemma executeConnector_explains env st connectorId action params context r st' fx :
  responses_have_status env →
  cache_sound st →
  executeConnector env st connectorId action params context = (Normal r, st', fx) →
  explains_failure r.
Proof.
  intros Henv Hst. unfold executeConnector.
  destruct (connectors st !! connectorId) as [c|]; cycle 1.
  { intros [= <- <- <-]. apply failure_explains. }
  destruct (enabled c); simpl; cycle 1.
  { intros [= <- <- <-]. apply failure_explains. }
  destruct (cacheKey _ _ _) as [key|e]; [|done].
  destruct (fresh env _) as [hit|] eqn:Hhit.
  { intros [= <- <- <-]. apply fresh_Some in Hhit as [Hhit _].
    intros Hfail. simpl in Hfail. rewrite (Hst _ _ Hhit) in Hfail. done. }
  destruct (dispatch _ _ _ _ _ _ _) as [[[r0|e] conns] ran] eqn:Hd.
  - pose proof (dispatch_explains _ _ _ _ _ _ _ _ _ _ Henv Hd) as Hr0.
    change (success (with_duration r0 (now_end env - now_start env)))
      with (success r0).
    destruct (success r0); intros [= <- <- <-]; exact Hr0.
  - intros [= <- <- <-]. intros _. by eexists.
Qed.

(** C1 (where the code departs from it). The built-in GitHub connector is
    asked to [get] a path and the HTTP response that comes back has no
    status code ([statusCode] is [undefined], which its type allows and the
    code tests for) or the status code 0: [executeConnector] returns an
    envelope with [success = false] whose [error] is absent. *)
Theorem api_failure_without_error :
  (executeConnector (world_of 1000 (no_status "{}") no_exec) registry
     "github" "get" ping None).1.1
  = Normal {| success := false; data := Some (JStr "{}"); error := None;
              metadata := Some (JObj [("status", JUndefined); ("headers", JObj [])]);
              cached := None; duration := Some 7 |} ∧
  (executeConnector (world_of 1000 (zero_status "{}") no_exec) registry
     "github" "get" ping None).1.1
  = Normal {| success := false; data := Some (JStr "{}"); error := None;
              metadata := Some (JObj [("status", JNum 0); ("headers", JObj [])]);
              cached := None; duration := Some 7 |}.
Proof. split; vm_compute; reflexivity. Qed.

(** *** What a call does to the registry *)

(** A call leaves the workflows alone, and the connectors too unless it ran
    the api strategy on a connector with configured headers: then that
    connector is stored with the header object the strategy wrote to, all
    its other fields as before. *)
Lemma executeConnector_registry env st connectorId action params context r st' fx :
  executeConnector env st connectorId action params context = (r, st', fx) →
  workflows st' = workflows st ∧
  (connectors st' = connectors st ∨
   ∃ c hs, connectors st !! connectorId = Some c ∧ conn_type c = "api" ∧
           is_Some (headers (config c)) ∧
           connectors st' = <[connectorId := set_headers c hs]> (connectors st)).
Proof.
  unfold executeConnector.
  destruct (connectors st !! connectorId) as [c|] eqn:Hc; cycle 1.
  { intros [= <- <- <-]. auto. }
  destruct (enabled c); simpl; cycle 1.
  { intros [= <- <- <-]. auto. }
  destruct (cacheKey _ _ _) as [key|e]; cycle 1.
  { intros [= <- <- <-]. auto. }
  destruct (fresh env _) as [hit|].
  { intros [= <- <- <-]. auto. }
  destruct (dispatch _ _ _ _ _ _ _) as [[r0 conns] ran] eqn:Hd.
  destruct (dispatch_registry _ _ _ _ _ _ _ _ _ _ Hc Hd) as [Hconns _].
  assert (conns = connectors st ∨
          ∃ c0 hs, Some c = Some c0 ∧ conn_type c0 = "api" ∧
                   is_Some (headers (config c0)) ∧
                   conns = <[connectorId := set_headers c0 hs]> (connectors st))
    as Hgoal.
  { destruct Hconns as [->|(hs & ? & ? & ->)]; [by left|right]. by exists c, hs. }
  destruct r0 as [r0|e].
  - change (success (with_duration r0 (now_end env - now_start env)))
      with (success r0).
    destruct (success r0); intros [= <- <- <-]; auto.
  - intros [= <- <- <-]. auto.
Qed.

(** A connector that is not of type api, or has no configured headers, is
    stored unchanged by its own calls. *)
Lemma executeConnector_frame env st connectorId action params context r st' fx c :
  connectors st !! connectorId = Some c →
  conn_type c ≠ "api" ∨ headers (config c) = None →
  executeConnector env st connectorId action params context = (r, st', fx) →
  connectors st' = connectors st.
Proof.
  intros Hc Hnot He.
  destruct (executeConnector_registry _ _ _ _ _ _ _ _ _ He)
    as [_ [?|(c0 & hs & Hc0 & Hty & [h Hh] & _)]]; [done|].
  rewrite Hc in Hc0. injection Hc0 as <-.
  destruct Hnot; congruence.
Qed.

(** C8 (where the code departs from it). The built-in GitHub connector is
    stored with the two headers [Accept] and [User-Agent]. One
    [executeConnector] call with action [post] later, the stored definition
    of that connector has a third configured header, [Content-Type]: the api
    strategy wrote to [connector.config.headers] itself. *)
Theorem post_rewrites_stored_headers :
  let st' := (executeConnector (world_of 1000 (ok_200 "{}") no_exec) registry
                "github" "post" ping None).1.2 in
  (headers ∘ config) <$> connectors registry !! "github"
    = Some (Some [("Accept", JStr "application/vnd.github.v3+json");
                  ("User-Agent", JStr "Neon-Agent")]) ∧
  (headers ∘ config) <$> connectors st' !! "github"
    = Some (Some [("Accept", JStr "application/vnd.github.v3+json");
                  ("User-Agent", JStr "Neon-Agent");
                  ("Content-Type", JStr "application/json")]).
Proof. split; vm_compute; reflexivity. Qed.

(** *** The cli strategy *)

(** C9, as amended. When the command of a cli connector has run: if it
    succeeded, [data] holds its stdout and stderr with leading and trailing
    white space removed ([trim]); if it failed, [data] holds the stdout and
    stderr strings carried by the error exactly as they are. *)
Theorem cli_output_capture env connector action params context fullCommand :
  cli_command connector action params = Normal fullCommand →
  match execAsync env fullCommand (default 30000 (timeout (config connector)))
          (workspaceRoot <$> context) with
  | ExecResolved stdout stderr =>
      ∃ r, executeCLIConnector env connector action params context = Normal r ∧
           success r = true ∧
           data r = Some (cli_data (JStr (trim stdout)) (JStr (trim stderr)))
  | ExecRejected message stdout stderr =>
      ∃ r, executeCLIConnector env connector action params context = Normal r ∧
           success r = false ∧
           ∀ out err, stdout = JStr out → stderr = JStr err →
                      data r = Some (cli_data (JStr out) (JStr err))
  end.
Proof.
  intros Hcmd. unfold executeCLIConnector. rewrite Hcmd. simpl.
  destruct (execAsync env _ _ _) as [out err|m out err].
  - eexists. repeat split.
  - eexists. repeat split. intros o e -> ->. simpl.
    unfold or_else. simpl. by do 2 case_bool_decide; subst.
Qed.

Lemma cli_output_capture_witness :
  ∃ r, executeCLIConnector (world_of 1000 TimerFired (ExecResolved docker_version ""))
         (docker true) "version" (JObj []) None = Normal r ∧
       success r = true ∧
       data r = Some (cli_data (JStr (trim docker_version)) (JStr (trim ""))).
Proof.
  exact (cli_output_capture (world_of 1000 TimerFired (ExecResolved docker_version ""))
           (docker true) "version" (JObj []) None "docker --version" eq_refl).
Defined.

(** C9 as stated fails on the success path: with the Docker connector
    switched on, a [version] call whose command prints
    [Docker version 24.0.7] and a line feed returns the text without the
    line feed. *)
Lemma cli_success_drops_line_feed :
  let env := world_of 1000 TimerFired (ExecResolved docker_version "") in
  execAsync env "docker --version" 30000 None = ExecResolved docker_version "" ∧
  ∃ r, (executeConnector env (toggleConnector registry "docker") "docker" "version"
          (JObj []) None).1.1 = Normal r ∧
       success r = true ∧
       data r = Some (cli_data (JStr "Docker version 24.0.7") (JStr "")) ∧
       data r ≠ Some (cli_data (JStr docker_version) (JStr "")).
Proof.
  split; [reflexivity|]. eexists. split; [vm_compute; reflexivity|].
  repeat split. vm_compute. discriminate.
Qed.

(** *** The cache key *)

(** C4 as stated fails: [{path, page}] and [{page, path}] are equal as
    key-value maps and get different cache keys. *)
Lemma cache_key_depends_on_key_order :
  let p := [("path", JStr "/ping"); ("page", JNum 2)] in
  let q := [("page", JNum 2); ("path", JStr "/ping")] in
  same_map p q ∧
  cacheKey "github" "get" (JObj p) ≠ cacheKey "github" "get" (JObj q).
Proof.
  split.
  - unfold same_map. simpl. by apply insert_insert_ne.
  - vm_compute. discriminate.
Qed.

End HubFacts.

(** ** Properties of the workflow engine *)

Module EngineFacts.
Import Js Hub Engine Samples.


Lemma nonempty_Some s : s ≠ "" → nonempty (Some s) = Some s.
Proof. intros H. unfold nonempty. by rewrite bool_decide_eq_false_2. Qed.

Lemma switch_condition senv st w context results step :
  step_type step = "condition" →
  switch senv st w context results step =
    let conditionResult :=
      evaluateCondition senv (default "true" (nonempty (condition step)))
        (variables w) results in
    Navigate (results ++ [entry step (succeed (JObj [("result", conditionResult)]))])
      (if truthy conditionResult then onSuccess step else onFailure step) st.
Proof. intros Hty. unfold switch. rewrite Hty. by repeat case_decide. Qed.

Lemma loop_step fuel world k w context st results ran cur step :
  cur ≠ "" →
  find_step w cur = Some step →
  loop (S fuel) world k w context st results ran (Some cur) =
    match turn (world k) st w context results cur step with
    | Continue results' next st' =>
        loop fuel world (S k) w context st' results' (ran ++ [step]) next
    | Return r st' => Some (r, st', ran ++ [step])
    end.
Proof. intros Hcur Hfind. cbn [loop]. by rewrite nonempty_Some, Hfind. Qed.

(** C2. When the loop is at a condition step, the next step id is the
    step's [onSuccess] if the expression evaluates to a true value, and its
    [onFailure] if the expression evaluates to a false value or its
    evaluation throws; the loop goes round again with exactly that id, the
    entry of the condition step pushed, and the move to the next array
    position is not made. *)
Theorem condition_step_navigates fuel world k w context st results ran cur step :
  cur ≠ "" →
  find_step w cur = Some step →
  step_type step = "condition" →
  let expression := default "true" (nonempty (condition step)) in
  let next :=
    match evaluate (world k) expression (variables w) results with
    | Normal v => if truthy v then onSuccess step else onFailure step
    | Throw _ => onFailure step
    end in
  ∃ stepResult,
    turn (world k) st w context results cur step
      = Continue (results ++ [entry step stepResult]) next st ∧
    loop (S fuel) world k w context st results ran (Some cur)
      = loop fuel world (S k) w context st (results ++ [entry step stepResult])
          (ran ++ [step]) next.
Proof.
  intros Hcur Hfind Hty expression next.
  set (v := evaluateCondition (world k) expression (variables w) results).
  exists (succeed (JObj [("result", v)])).
  assert (turn (world k) st w context results cur step
          = Continue (results ++ [entry step (succeed (JObj [("result", v)]))]) next st)
    as Hturn.
  { unfold turn. rewrite (switch_condition _ _ _ _ _ _ Hty). cbv zeta.
    fold expression v. f_equal.
    unfold next, v, evaluateCondition. by destruct (evaluate _ _ _ _). }
  split; [done|].
  by rewrite (loop_step _ _ _ _ _ _ _ _ _ _ Hcur Hfind), Hturn.
Qed.

Lemma condition_step_navigates_witness :
  ∃ stepResult,
    turn (steady (Throw "ReferenceError: deploy is not defined") 0) hub gated here
      [] "gate" gate
      = Continue [entry gate stepResult] (Some "build") hub ∧
    loop 3 (steady (Throw "ReferenceError: deploy is not defined")) 0 gated here hub
      [] [] (Some "gate")
      = loop 2 (steady (Throw "ReferenceError: deploy is not defined")) 1 gated here hub
          [entry gate stepResult] [gate] (Some "build").
Proof.
  exact (condition_step_navigates 2
           (steady (Throw "ReferenceError: deploy is not defined")) 0 gated here hub
           [] [] "gate" gate ltac:(discriminate) eq_refl eq_refl).
Defined.

(** Every turn that leaves the [switch] with a step result pushes that
    result before anything else. *)
Lemma turn_pushes_result senv st w context results cur step stepResult st' :
  switch senv st w context results step = Result stepResult st' →
  turn_results (turn senv st w context results cur step)
    = Some (results ++ [entry step stepResult]).
Proof.
  intros Hsw. unfold turn, after_switch. rewrite Hsw.
  by destruct (negb (success stepResult) && is_required step).
Qed.

(** C3, as amended. A workflow that is registered and enabled and whose
    first step is entered. If that step is required and yields a failed
    result, [executeWorkflow] returns the failed envelope naming that step,
    the result log holds exactly the entry of that step, and no other step
    has run. If the step throws instead (a connector call whose parameters
    cannot be written as a cache key), [executeWorkflow] returns the failed
    envelope of the [catch], no other step has run, and the result log is
    empty: there is no step result to append. In general, whenever a step
    yields a result, failed or not, the log the turn leaves behind is the
    log before it with that result appended, whether the turn halts or goes
    on; and when a step throws the turn leaves the log as it was. *)
Theorem required_first_step_failure_halts fuel world st workflowId context w first rest :
  workflows st !! workflowId = Some w →
  wf_enabled w = true →
  steps w = first :: rest →
  step_id first ≠ "" →
  (∀ stepResult st1,
     required first = Some true →
     switch (world 0%nat) st w context [] first = Result stepResult st1 →
     success stepResult = false →
     executeWorkflow (S fuel) world st workflowId context =
       Some ({| wr_success := false;
                wr_error := Some ("Required step '" +:+ step_name first +:+ "' failed: " +:+
                                  default "undefined" (error stepResult));
                workflowResults := Some [entry first stepResult];
                wr_workflow := None |},
             st1, [first])) ∧
  (∀ e st1,
     switch (world 0%nat) st w context [] first = Thrown e st1 →
     executeWorkflow (S fuel) world st workflowId context =
       Some ({| wr_success := false;
                wr_error := Some ("Workflow execution failed at step '" +:+
                                  step_name first +:+ "': " +:+ e);
                workflowResults := Some [];
                wr_workflow := None |},
             st1, [first])) ∧
  (∀ senv st0 results cur step r st',
     switch senv st0 w context results step = Result r st' →
     turn_results (turn senv st0 w context results cur step)
       = Some (results ++ [entry step r])) ∧
  (∀ senv st0 results cur step e st',
     switch senv st0 w context results step = Thrown e st' →
     turn_results (turn senv st0 w context results cur step) = Some results).
Proof.
  intros Hw Hon Hsteps Hid.
  assert (executeWorkflow (S fuel) world st workflowId context
          = match turn (world 0%nat) st w context [] (step_id first) first with
            | Continue results' next st' =>
                loop fuel world 1 w context st' results' [first] next
            | Return r st' => Some (r, st', [first])
            end) as Hrun.
  { unfold executeWorkflow. rewrite Hw, Hon. cbn [negb].
    assert (id_at w 0 = Some (step_id first)) as ->.
    { unfold id_at. by rewrite Hsteps. }
    assert (find_step w (step_id first) = Some first) as Hfind.
    { unfold find_step. rewrite Hsteps. simpl. by rewrite bool_decide_eq_true_2. }
    by rewrite (loop_step _ _ _ _ _ _ _ _ _ _ Hid Hfind). }
  split; [|split; [|split]].
  - intros stepResult st1 Hreq Hsw Hfail. rewrite Hrun.
    unfold turn, after_switch, is_required. by rewrite Hsw, Hfail, Hreq.
  - intros e st1 Hsw. rewrite Hrun. unfold turn, caught. by rewrite Hsw.
  - intros; by eapply turn_pushes_result.
  - intros senv st0 results cur step e st' Hsw. unfold turn, caught. by rewrite Hsw.
Qed.

Lemma required_first_step_failure_halts_witness :
  executeWorkflow 1 (steady (Normal (JBool true))) hub "deploy" here =
    Some ({| wr_success := false;
             wr_error := Some "Required step 'Build Image' failed: Connector 'docker' is disabled";
             workflowResults :=
               Some [entry build (failure "Connector 'docker' is disabled")];
             wr_workflow := None |},
          hub, [build]) ∧
  executeWorkflow 1 (steady (Normal (JBool true))) Fixtures.ledger "tallying" here =
    Some ({| wr_success := false;
             wr_error := Some ("Workflow execution failed at step 'Fetch': " +:+ bigint_error);
             workflowResults := Some [];
             wr_workflow := None |},
          Fixtures.ledger, [Fixtures.fetch]).
Proof.
  split.
  - refine (proj1 (required_first_step_failure_halts 0 (steady (Normal (JBool true))) hub
                     "deploy" here deploy build [approve] _ eq_refl eq_refl _)
              (failure "Connector 'docker' is disabled") hub eq_refl _ eq_refl).
    + vm_compute. reflexivity.
    + discriminate.
    + vm_compute. reflexivity.
  - refine (proj1 (proj2 (required_first_step_failure_halts 0
                            (steady (Normal (JBool true))) Fixtures.ledger "tallying" here
                            Fixtures.tallying Fixtures.fetch [approve] _ eq_refl eq_refl _))
              bigint_error Fixtures.ledger _).
    + vm_compute. reflexivity.
    + discriminate.
    + vm_compute. reflexivity.
Defined.

(** C3 as stated fails. The first step of [tallying] is required and
    fails: its connector call throws while it writes the variables as a
    cache key. The workflow halts with a failed envelope and no other step
    runs, but the result log holds no entry for the failed step. *)
Lemma thrown_first_step_leaves_no_entry :
  steps Fixtures.tallying = [Fixtures.fetch; approve] ∧
  required Fixtures.fetch = Some true ∧
  executeWorkflow 1 (steady (Normal (JBool true))) Fixtures.ledger "tallying" here =
    Some ({| wr_success := false;
             wr_error := Some ("Workflow execution failed at step 'Fetch': " +:+
                               "TypeError: Do not know how to serialize a BigInt");
             workflowResults := Some [];
             wr_workflow := None |},
          Fixtures.ledger, [Fixtures.fetch]).
Proof. repeat split. Qed.



End EngineFacts.

(** ** More on the executor *)

Module ExecutorFacts.
Import Js Hub Registry Samples Fixtures.

(** The strategies read the registry, never the cache or the workflows. *)
Lemma dispatch_reads_connectors env st st' connectorId c action params context :
  connectors st = connectors st' →
  dispatch env st connectorId c action params context
  = dispatch env st' connectorId c action params context.
Proof. intros H. unfold dispatch. by rewrite H. Qed.

(** [executeConnector] on a registered, enabled connector whose cache key
    is [key] and has no servable entry. *)
Lemma executeConnector_miss env st connectorId action params context c key :
  connectors st !! connectorId = Some c →
  enabled c = true →
  cacheKey connectorId action (default_params params) = Normal key →
  fresh env (responseCache st !! key) = None →
  executeConnector env st connectorId action params context =
    let message := "Executing connector " +:+ connectorId +:+
                   " with action " +:+ action in
    let '(r, conns, ran) :=
      dispatch env st connectorId c action (default_params params) context in
    match r with
    | Normal r0 =>
        let r1 := with_duration r0 (now_end env - now_start env) in
        if success r1 then
          (Normal r1,
           {| connectors := conns; workflows := workflows st;
              responseCache :=
                <[key := {| response := r1; timestamp := now_store env |}]>
                  (responseCache st) |},
           [CacheGet key; Log message] ++ ran ++ [CacheSet key])
        else
          (Normal r1,
           {| connectors := conns; workflows := workflows st;
              responseCache := responseCache st |},
           [CacheGet key; Log message] ++ ran)
    | Throw e =>
        (Normal {| success := false; data := None;
                   error := Some ("Connector execution failed: " +:+ e);
                   metadata := None; cached := None;
                   duration := Some (now_end env - now_start env) |},
         {| connectors := conns; workflows := workflows st;
            responseCache := responseCache st |},
         [CacheGet key; Log message] ++ ran)
    end.
Proof.
  intros Hc Hon Hkey Hfresh. unfold executeConnector.
  by rewrite Hc, Hon, Hkey, Hfresh.
Qed.

Lemma cacheKey_Throw connectorId action params e :
  cacheKey connectorId action params = Throw e ↔ JSON_stringify params = Throw e.
Proof.
  unfold cacheKey. destruct (JSON_stringify params); simpl; split; congruence.
Qed.

Lemma executeConnector_Throw env st connectorId action params context e st' fx :
  executeConnector env st connectorId action params context = (Throw e, st', fx) →
  JSON_stringify (default_params params) = Throw e ∧ st' = st.
Proof.
  unfold executeConnector.
  destruct (connectors st !! connectorId) as [c|]; [|done].
  destruct (enabled c); [|done]. cbn [negb].
  destruct (cacheKey _ _ _) as [key|e'] eqn:Hkey.
  - destruct (fresh env _); [done|].
    destruct (dispatch _ _ _ _ _ _ _) as [[[r0|e0] conns] ran]; [|done].
    change (success (with_duration r0 (now_end env - now_start env)))
      with (success r0).
    by destruct (success r0).
  - intros [= <- <- _]. split; [|done]. by apply (cacheKey_Throw connectorId action).
Qed.

(** X1. The only exception that leaves [executeConnector] is the one of
    [JSON.stringify(params)] in the cache key: the call throws [e] exactly
    when the connector is registered and enabled and stringifying the
    parameters throws [e]; every failure of a strategy comes back as an
    envelope. When it throws, the hub is as before and nothing was done. *)
Theorem executeConnector_throws_iff env st connectorId action params context e :
  ((executeConnector env st connectorId action params context).1.1 = Throw e ↔
   (∃ c, connectors st !! connectorId = Some c ∧ enabled c = true) ∧
   JSON_stringify (default_params params) = Throw e) ∧
  ((executeConnector env st connectorId action params context).1.1 = Throw e →
   executeConnector env st connectorId action params context = (Throw e, st, [])).
Proof.
  unfold executeConnector.
  destruct (connectors st !! connectorId) as [c|] eqn:Hc; cycle 1.
  { simpl. split; [split|]; [done| |done]. by intros [(c & [=] & _) _]. }
  destruct (enabled c) eqn:Hon; simpl; cycle 1.
  { split; [split|]; [done| |done]. intros [(c' & [= <-] & Hc') _]. congruence. }
  destruct (cacheKey _ _ _) as [key|e'] eqn:Hkey; cycle 1.
  { apply cacheKey_Throw in Hkey. simpl. split; [split|].
    - intros [= <-]. eauto.
    - intros [_ He]. congruence.
    - by intros [= <-]. }
  assert (JSON_stringify (default_params params) ≠ Throw e) as Hno.
  { intros He. apply (cacheKey_Throw connectorId action) in He. congruence. }
  destruct (fresh env _).
  { simpl. split; [split|]; [done| |done]. by intros [_ ?]. }
  destruct (dispatch _ _ _ _ _ _ _) as [[[r0|e0] conns] ran]; simpl.
  - destruct (success r0); simpl; (split; [split|]; [done| |done]); by intros [_ ?].
  - split; [split|]; [done| |done]. by intros [_ ?].
Qed.

Lemma executeConnector_throws_iff_witness :
  executeConnector (world_of 1000 TimerFired no_exec) registry "github" "get"
    (JObj [("page", JBigInt 2)]) None
  = (Throw bigint_error, registry, []).
Proof.
  apply (executeConnector_throws_iff (world_of 1000 TimerFired no_exec) registry
           "github" "get" (JObj [("page", JBigInt 2)]) None bigint_error).
  vm_compute. reflexivity.
Defined.

Lemma fresh_stale env hit :
  60000 ≤ now_lookup env - timestamp hit → fresh env (Some hit) = None.
Proof.
  intros H. unfold fresh.
  destruct (Z.ltb_spec (now_lookup env - timestamp hit) 60000); [lia | done].
Qed.

(** X2. A cache entry that is 60 seconds old or older is never served: the
    call returns the same envelope, has the same effects and leaves the same
    registry as it would if the entry were not in the cache at all. *)
Theorem stale_entry_is_ignored env st connectorId action params context key hit :
  cacheKey connectorId action (default_params params) = Normal key →
  responseCache st !! key = Some hit →
  60000 ≤ now_lookup env - timestamp hit →
  let with_entry := executeConnector env st connectorId action params context in
  let without := executeConnector env (forget key st) connectorId action params context in
  with_entry.1.1 = without.1.1 ∧
  with_entry.2 = without.2 ∧
  connectors with_entry.1.2 = connectors without.1.2.
Proof.
  intros Hkey Hhit Hage. cbv zeta. unfold executeConnector.
  change (connectors (forget key st)) with (connectors st).
  destruct (connectors st !! connectorId) as [c|]; [|done].
  destruct (enabled c); [|done]. cbn [negb]. rewrite Hkey.
  change (responseCache (forget key st)) with (delete key (responseCache st)).
  rewrite Hhit, lookup_delete_eq, (fresh_stale _ _ Hage). cbn [fresh].
  rewrite (dispatch_reads_connectors env (forget key st) st) by done.
  destruct (dispatch _ _ _ _ _ _ _) as [[[r0|e0] conns] ran]; [|done].
  change (success (with_duration r0 (now_end env - now_start env)))
    with (success r0).
  by destruct (success r0).
Qed.

Lemma stale_entry_is_ignored_witness :
  let st := after_call registry first_ping in
  let late := at_times 61007 61007 61010 61010 TimerFired no_exec in
  (executeConnector late st "github" "get" ping None).1.1
  = (executeConnector late (forget ping_key st) "github" "get" ping None).1.1.
Proof.
  intros st late.
  refine (proj1 (stale_entry_is_ignored late st "github" "get" ping None ping_key
                   {| response :=
                        with_duration
                          (api_response (world_of 1000 (ok_200 "{}") no_exec)
                             {| statusCode := Some 200; statusMessage := "OK";
                                res_headers := JObj []; res_data := "{}" |}) 7;
                      timestamp := 1007 |} _ _ _)).
  - vm_compute. reflexivity.
  - vm_compute. reflexivity.
  - vm_compute. discriminate.
Defined.

Lemma string_app_assoc (a b c : string) : (a +:+ b) +:+ c = a +:+ b +:+ c.
Proof.
  induction a as [|x a IH]; [done|].
  change (String x ((a +:+ b) +:+ c) = String x (a +:+ b +:+ c)). by rewrite IH.
Qed.

(** The key is a plain concatenation: a colon in a connector id or an
    action moves freely between the two. *)
Lemma cacheKey_colon c a b params :
  cacheKey (c +:+ ":" +:+ a) b params = cacheKey c (a +:+ ":" +:+ b) params.
Proof.
  unfold cacheKey. destruct (JSON_stringify params); [|done]. simpl.
  by rewrite !string_app_assoc.
Qed.

(** X3. Cache keys collide across connectors. When a call to connector
    [c:a] with action [b] stores its envelope, a call to another registered
    and enabled connector [c] with action [a:b] and the same parameters,
    less than 60 seconds later, is served that envelope from the cache; its
    own strategy does not run. *)
Theorem cache_key_collision env1 env2 st c a b params context1 context2
    r1 st1 fx1 key other :
  executeConnector env1 st (c +:+ ":" +:+ a) b params context1 = (Normal r1, st1, fx1) →
  CacheSet key ∈ fx1 →
  connectors st1 !! c = Some other →
  enabled other = true →
  now_lookup env2 - now_store env1 < 60000 →
  executeConnector env2 st1 c (a +:+ ":" +:+ b) params context2
  = (Normal (served_from_cache r1), st1, [CacheGet key]).
Proof.
  intros He1 Hset Hother Hon Hage.
  destruct (HubFacts.executeConnector_cache _ _ _ _ _ _ _ _ _ He1)
    as [[_ Hno]|(key0 & r & [= <-] & _ & _ & Hkey & Honly & _ & Hcache)].
  { by destruct (Hno key). }
  apply Honly in Hset as ->. rewrite cacheKey_colon in Hkey.
  unfold executeConnector.
  rewrite Hother, Hon, Hkey, Hcache, lookup_insert_eq. cbn [negb].
  by rewrite HubFacts.fresh_hit.
Qed.

Lemma cache_key_collision_witness :
  let first := world_of 1000 TimerFired (ExecResolved "never run" "") in
  let st1 := (executeConnector first colon_registry "db:main" "query" (JObj []) None).1.2 in
  ∃ r, executeConnector (world_of 2000 TimerFired (ExecResolved "never run" ""))
         st1 "db" "main:query" (JObj []) None
       = (Normal r, st1, [CacheGet "db:main:query:{}"]) ∧
       data r = Some (JObj [("rows", JArr []); ("rowCount", JNum 0); ("query", JStr "")]) ∧
       cached r = Some true.
Proof.
  intros first st1. eexists. split.
  - eapply (cache_key_collision first (world_of 2000 TimerFired (ExecResolved "never run" ""))
              colon_registry "db" "main" "query" (JObj []) None None).
    + reflexivity.
    + apply (list_elem_of_further _ _ _), (list_elem_of_further _ _ _),
        (list_elem_of_further _ _ _), (list_elem_of_here (CacheSet "db:main:query:{}")).
    + vm_compute. reflexivity.
    + reflexivity.
    + vm_compute. reflexivity.
  - split; reflexivity.
Defined.

Lemma executeConnector_definitions env st connectorId action params context r st' fx :
  executeConnector env st connectorId action params context = (r, st', fx) →
  workflows st' = workflows st ∧
  ∀ k, sans_headers <$> connectors st' !! k = sans_headers <$> connectors st !! k.
Proof.
  intros He.
  destruct (HubFacts.executeConnector_registry _ _ _ _ _ _ _ _ _ He)
    as [Hw [->|(c & hs & Hc & _ & _ & ->)]]; [done|].
  split; [done|]. intros k. rewrite lookup_insert. case_decide; [|done].
  subst k. by rewrite Hc.
Qed.

(** X4. A call never adds, removes, enables, disables or retypes a
    connector and never touches the workflows: with the configured headers
    left out, every stored connector definition is the same before and
    after. *)
Theorem executeConnector_keeps_definitions env st connectorId action params context :
  let st' := (executeConnector env st connectorId action params context).1.2 in
  workflows st' = workflows st ∧
  ∀ k, sans_headers <$> connectors st' !! k = sans_headers <$> connectors st !! k.
Proof.
  cbv zeta.
  destruct (executeConnector env st connectorId action params context)
    as [[r st'] fx] eqn:He. simpl.
  by eapply executeConnector_definitions.
Qed.

Lemma build_request_default url hs action params :
  action ∉ ["get"; "post"; "put"; "delete"] →
  build_request url hs action params = (Normal None, hs).
Proof.
  intros Hno. unfold build_request.
  repeat case_decide; try done; subst; exfalso; apply Hno; set_solver.
Qed.

Lemma dispatch_unsupported env st connectorId c action params context :
  unsupported c action →
  ∃ conns ran,
    dispatch env st connectorId c action params context
    = (Normal (failure (unsupported_message c action)), conns, ran).
Proof.
  unfold unsupported_message.
  intros [[Hty Hno]|[[Hty Hno]|[Hty Hno]]]; unfold dispatch; rewrite Hty.
  - rewrite !decide_True by done.
    unfold executeAPIConnector. rewrite build_request_default by done.
    by eexists _, _.
  - rewrite (decide_False (P := "file" = "api")) by done.
    rewrite (decide_False (P := "file" = "cli")) by done.
    rewrite (decide_True (P := "file" = "file")) by done.
    unfold executeFileConnector, file_action.
    repeat (rewrite decide_False by (intros ->; apply Hno; set_solver)).
    by eexists _, _.
  - rewrite (decide_False (P := "database" = "api")) by done.
    rewrite (decide_False (P := "database" = "cli")) by done.
    rewrite (decide_False (P := "database" = "file")) by done.
    rewrite (decide_True (P := "database" = "database")) by done.
    unfold executeDatabaseConnector.
    repeat (rewrite decide_False by (intros ->; apply Hno; set_solver)).
    by eexists _, _.
Qed.

(** X5. An action that the strategy of an api, file or database connector
    does not know always comes back as the failed envelope
    [Unsupported ... action: <action>], stamped with a duration, and leaves
    the cache as it was, whatever the world does. *)
Theorem unsupported_action_fails env st connectorId action params context c key :
  connectors st !! connectorId = Some c →
  enabled c = true →
  unsupported c action →
  cacheKey connectorId action (default_params params) = Normal key →
  responseCache st !! key = None →
  let out := executeConnector env st connectorId action params context in
  out.1.1 = Normal (with_duration (failure (unsupported_message c action))
                      (now_end env - now_start env)) ∧
  responseCache out.1.2 = responseCache st.
Proof.
  intros Hc Hon Hun Hkey Hmiss. cbv zeta.
  rewrite (executeConnector_miss _ _ _ _ _ _ _ _ Hc Hon Hkey)
    by (by rewrite Hmiss).
  destruct (dispatch_unsupported env st connectorId c action
              (default_params params) context Hun) as (conns & ran & ->).
  done.
Qed.

Lemma unsupported_action_fails_witness :
  let out := executeConnector (world_of 1000 (ok_200 "{}") no_exec) registry
               "github" "patch" ping None in
  out.1.1 = Normal (with_duration (failure "Unsupported API action: patch") 7) ∧
  responseCache out.1.2 = responseCache registry.
Proof.
  apply (unsupported_action_fails (world_of 1000 (ok_200 "{}") no_exec) registry
           "github" "patch" ping None github
           ("github:patch:{" +:+ dquote +:+ "path" +:+ dquote +:+ ":" +:+
            dquote +:+ "/ping" +:+ dquote +:+ "}")).
  - vm_compute. reflexivity.
  - reflexivity.
  - left. split; [reflexivity | compute_done].
  - vm_compute. reflexivity.
  - vm_compute. reflexivity.
Defined.

(** X6. [testConnector] asks for the action [health] with empty
    parameters, which the api, file and database strategies do not know: on
    an enabled connector of one of these types (and nothing cached under
    the key) the health check always fails with
    [Unsupported ... action: health]. *)
Theorem health_check_cannot_pass env st connectorId root now c :
  connectors st !! connectorId = Some c →
  enabled c = true →
  conn_type c ∈ ["api"; "file"; "database"] →
  responseCache st !! (connectorId +:+ ":health:{}") = None →
  (testConnector env st connectorId root now).1.1
  = Normal (with_duration (failure (unsupported_message c "health"))
              (now_end env - now_start env)).
Proof.
  intros Hc Hon Hty Hmiss. unfold testConnector. rewrite Hc.
  assert (unsupported c "health") as Hun.
  { unfold unsupported. set_unfold in Hty.
    destruct Hty as [->|[->|[->|[]]]]; [left|right; left|right; right];
      (split; [done | compute_done]). }
  rewrite (executeConnector_miss _ _ _ "health" (JObj []) _ _
             (connectorId +:+ ":health:{}") Hc Hon eq_refl)
    by (by rewrite Hmiss).
  by destruct (dispatch_unsupported env st connectorId c "health"
                 (default_params (JObj [])) (Some
                    {| workspaceRoot := root; currentFile := None;
                       selectedText := None; language := None; gitBranch := None;
                       ctx_timestamp := now; userRequest := "health-check" |})
                 Hun) as (conns & ran & ->).
Qed.

Lemma health_check_cannot_pass_witness :
  (testConnector (world_of 1000 (ok_200 "{}") no_exec) registry "github" "/work" 1000).1.1
  = Normal (with_duration (failure "Unsupported API action: health") 7).
Proof.
  apply (health_check_cannot_pass (world_of 1000 (ok_200 "{}") no_exec) registry
           "github" "/work" 1000 github).
  - vm_compute. reflexivity.
  - reflexivity.
  - compute_done.
  - vm_compute. reflexivity.
Defined.

Ltac settle_decides :=
  repeat first [rewrite decide_True by done | rewrite decide_False by done].

(** X7. [null] parameters never make a call throw and never make it
    succeed. Where the strategy reads a property of [params] for the action,
    the TypeError of that read comes back as a failed envelope: through the
    [catch] of [executeConnector] for api and cli connectors, through the
    strategy's own [catch] for file and database connectors. Nothing is
    cached. *)
Theorem null_params_are_caught env st connectorId action context c prop :
  connectors st !! connectorId = Some c →
  enabled c = true →
  first_read c action = Some prop →
  responseCache st !! (connectorId +:+ ":" +:+ action +:+ ":null") = None →
  let out := executeConnector env st connectorId action JNull context in
  out.1.1 = Normal (with_duration
                      (failure (catch_prefix c +:+
                                "TypeError: Cannot read properties of null (reading '" +:+
                                prop +:+ "')"))
                      (now_end env - now_start env)) ∧
  responseCache out.1.2 = responseCache st.
Proof.
  intros Hc Hon Hread Hmiss. cbv zeta.
  rewrite (executeConnector_miss _ _ _ action JNull _ _
             (connectorId +:+ ":" +:+ action +:+ ":null") Hc Hon eq_refl)
    by (by rewrite Hmiss).
  cbv zeta. change (default_params JNull) with JNull.
  unfold first_read in Hread. unfold catch_prefix, dispatch.
  destruct (decide (conn_type c = "api")) as [Hty|Hapi].
  { rewrite ?Hty. settle_decides.
    case_decide as Hact; [|done]. injection Hread as <-.
    unfold executeAPIConnector, build_request.
    set_unfold in Hact. destruct Hact as [->|[->|[->|[->|[]]]]]; settle_decides; done. }
  destruct (decide (conn_type c = "cli")) as [Hty|Hcli].
  { rewrite ?Hty. settle_decides.
    case_decide as Hact; [done|]. injection Hread as <-.
    unfold executeCLIConnector, cli_command.
    destruct (decide (action = "run")) as [->|Hrun]; settle_decides; done. }
  destruct (decide (conn_type c = "file")) as [Hty|Hfile].
  { rewrite ?Hty. settle_decides.
    case_decide as Hact; [|done]. injection Hread as <-.
    unfold executeFileConnector, file_action.
    set_unfold in Hact.
    destruct Hact as [->|[->|[->|[->|[->|[]]]]]]; settle_decides; done. }
  destruct (decide (conn_type c = "database")) as [Hty|Hdb]; [|done].
  rewrite ?Hty. settle_decides.
  case_decide as Hact; [|done]. injection Hread as <-. subst action.
  unfold executeDatabaseConnector. settle_decides. done.
Qed.

Lemma null_params_are_caught_witness :
  let out := executeConnector (world_of 1000 TimerFired (ExecResolved "up" ""))
               (toggleConnector registry "docker") "docker" "run" JNull None in
  out.1.1 = Normal (with_duration
                      (failure ("Connector execution failed: " +:+
                                "TypeError: Cannot read properties of null (reading 'args')"))
                      7) ∧
  responseCache out.1.2 = ∅.
Proof.
  apply (null_params_are_caught (world_of 1000 TimerFired (ExecResolved "up" ""))
           (toggleConnector registry "docker") "docker" "run" None (docker true) "args").
  - vm_compute. reflexivity.
  - reflexivity.
  - reflexivity.
  - vm_compute. reflexivity.
Defined.

(** X8. A [get] through an api connector whose request is answered with
    status code [n] (not 0): the envelope always carries [data] (the parsed
    body, or the raw text when it is not JSON); it is a success exactly when
    [n < 400] and has the error [HTTP n: <status message>] exactly when
    [n >= 400]; and it is written to the cache exactly when it is a
    success. *)
Theorem api_get_outcome env st connectorId params context c o key u res n :
  connectors st !! connectorId = Some c →
  enabled c = true →
  conn_type c = "api" →
  default_params params = JObj o →
  cacheKey connectorId "get" (JObj o) = Normal key →
  responseCache st !! key = None →
  new_URL env (or_empty (endpoint (config c)) +:+
               ToString (or_else (obj_get o "path") (JStr ""))) = Normal u →
  (∀ https options body timeout, request env https options body timeout = Responded res) →
  statusCode res = Some n →
  n ≠ 0 →
  let out := executeConnector env st connectorId "get" params context in
  ∃ r,
    out.1.1 = Normal r ∧
    success r = (n <? 400) ∧
    data r = Some (match JSON_parse env (res_data res) with
                   | Normal jsonData => jsonData
                   | Throw _ => JStr (res_data res)
                   end) ∧
    error r = (if 400 <=? n
               then Some ("HTTP " +:+ pretty n +:+ ": " +:+ statusMessage res)
               else None) ∧
    responseCache out.1.2 !! key
    = (if n <? 400 then Some {| response := r; timestamp := now_store env |} else None).
Proof.
  intros Hc Hon Hty Hparams Hkey Hmiss Hurl Hreq Hstatus Hn. cbv zeta.
  rewrite <- Hparams in Hkey.
  rewrite (executeConnector_miss _ _ _ _ _ _ _ _ Hc Hon Hkey) by (by rewrite Hmiss).
  cbv zeta. unfold dispatch. rewrite Hty, Hparams. settle_decides.
  unfold executeAPIConnector, build_request. settle_decides.
  cbn [get_prop b_url b_method b_body]. rewrite Hurl, Hreq.
  exists (with_duration (api_response env res) (now_end env - now_start env)).
  assert (success (api_response env res) = (n <? 400)) as Hs.
  { simpl. rewrite Hstatus. simpl. by destruct (Z.eqb_spec n 0). }
  assert (error (api_response env res)
          = if 400 <=? n then Some ("HTTP " +:+ pretty n +:+ ": " +:+ statusMessage res)
            else None) as Herr.
  { simpl. rewrite Hstatus. simpl. by destruct (Z.eqb_spec n 0). }
  change (success (with_duration (api_response env res) (now_end env - now_start env)))
    with (success (api_response env res)).
  rewrite Hs. destruct (n <? 400) eqn:Hlt.
  - repeat split; [done..|]. simpl. by rewrite lookup_insert_eq.
  - by repeat split.
Qed.

Lemma api_get_outcome_witness :
  let not_found := Responded {| statusCode := Some 404; statusMessage := "Not Found";
                                res_headers := JObj []; res_data := "gone" |} in
  let out := executeConnector (world_of 1000 not_found no_exec) registry
               "github" "get" ping None in
  ∃ r, out.1.1 = Normal r ∧ success r = false ∧ data r = Some (JStr "gone") ∧
       error r = Some "HTTP 404: Not Found" ∧
       responseCache out.1.2 !! ping_key = None.
Proof.
  intros not_found out.
  destruct (api_get_outcome (world_of 1000 not_found no_exec) registry "github" ping None
              github [("path", JStr "/ping")] ping_key api_github_com
              {| statusCode := Some 404; statusMessage := "Not Found";
                 res_headers := JObj []; res_data := "gone" |} 404)
    as (r & Hr & Hs & Hd & He & Hcache);
    [first [reflexivity | discriminate | vm_compute; reflexivity] ..|].
  exists r. repeat split; assumption.
Defined.

(** *** Header objects *)



Lemma obj_set_set_eq o k v v' : obj_set (obj_set o k v) k v' = obj_set o k v'.
Proof.
  induction o as [|[k0 w] o IH]; simpl.
  - by rewrite decide_True.
  - destruct (decide (k0 = k)) as [->|Hk0]; simpl.
    + by rewrite decide_True.
    + rewrite decide_False by done. by rewrite IH.
Qed.

Lemma obj_set_set_back o k v k' v' :
  k ≠ k' →
  obj_set (obj_set (obj_set o k v) k' v') k v = obj_set (obj_set o k v) k' v'.
Proof.
  intros Hne. induction o as [|[k0 w] o IH]; simpl.
  - rewrite decide_False by done. simpl. rewrite decide_True by done. done.
  - destruct (decide (k0 = k)) as [->|Hk0]; simpl.
    + rewrite decide_False by done. simpl. by rewrite decide_True.
    + destruct (decide (k0 = k')) as [->|Hk0']; simpl.
      * rewrite decide_False by done. f_equal.
        clear IH. induction o as [|[k1 w1] o IH]; simpl.
        { by rewrite decide_True. }
        destruct (decide (k1 = k)) as [->|Hk1]; simpl.
        { by rewrite decide_True. }
        rewrite decide_False by done. by rewrite IH.
      * rewrite decide_False by done. by rewrite IH.
Qed.

(** Writing the same header again changes nothing. *)
Lemma addAuthentication_idem env hs auth :
  addAuthentication env (addAuthentication env hs auth) auth
  = addAuthentication env hs auth.
Proof.
  unfold addAuthentication. repeat case_decide; by rewrite ?obj_set_set_eq.
Qed.




(** Whether the [switch (action)] of the api strategy writes [Content-Type]
    depends on the action and the parameters only. *)
Lemma build_request_headers action params :
  (∀ url hs, (build_request url hs action params).2 = hs) ∨
  (∀ url hs, (build_request url hs action params).2
             = obj_set hs "Content-Type" (JStr "application/json")).
Proof.
  unfold build_request. repeat case_decide;
    first [ by left
          | destruct (get_prop params "path"); by left
          | destruct (_ ≫= _) as [[??]|?]; [by right | by left] ].
Qed.

Lemma executeAPIConnector_headers env c action params :
  (executeAPIConnector env c action params).2
  = (build_request (or_empty (endpoint (config c)))
       (match authentication (config c) with
        | Some auth => addAuthentication env (default [] (headers (config c))) auth
        | None => default [] (headers (config c))
        end) action params).2.
Proof.
  unfold executeAPIConnector. by destruct (build_request _ _ _ _) as [[[b|]|e] hs].
Qed.

Lemma addAuthentication_after_content_type env hs auth :
  let ct := obj_set (addAuthentication env hs auth) "Content-Type"
              (JStr "application/json") in
  obj_set (addAuthentication env ct auth) "Content-Type" (JStr "application/json") = ct.
Proof.
  cbv zeta. unfold addAuthentication.
  assert (∀ o k v, obj_set (obj_set (obj_set (obj_set o k v) "Content-Type"
                                       (JStr "application/json")) k v)
                     "Content-Type" (JStr "application/json")
                   = obj_set (obj_set o k v) "Content-Type" (JStr "application/json"))
    as Hboth.
  { intros o k v. destruct (decide (k = "Content-Type")) as [->|Hne].
    - by rewrite !obj_set_set_eq.
    - rewrite !obj_set_set_back by done. done. }
  repeat case_decide; by rewrite ?Hboth, ?obj_set_set_eq.
Qed.

(** X10. What the api strategy writes to the header object is a fixed
    point: run again, for the same action and parameters, on the connector
    as it is stored after a run, it writes the same headers. The stored
    headers change on the first call and not on repeated ones. *)
Theorem api_headers_settle env c action params :
  let written := (executeAPIConnector env c action params).2 in
  (executeAPIConnector env (set_headers c written) action params).2 = written.
Proof.
  cbv zeta. rewrite !executeAPIConnector_headers.
  change (endpoint (config (set_headers c ?h))) with (endpoint (config c)).
  change (authentication (config (set_headers c ?h)))
    with (authentication (config c)).
  change (headers (config (set_headers c ?h))) with (Some h).
  cbn [default].
  destruct (build_request_headers action params) as [Hsame|Hct];
    rewrite ?Hsame, ?Hct; destruct (authentication (config c)) as [auth|].
  - apply addAuthentication_idem.
  - done.
  - apply addAuthentication_after_content_type.
  - apply obj_set_set_eq.
Qed.

(** *** The webhook strategy *)

Lemma context_serializes context :
  ∃ j, JSON_stringify (context_value context) = Normal j.
Proof.
  destruct context as [c|]; [|by eexists].
  destruct c as [root [f|] [t|] [l|] [g|] ts req]; by eexists.
Qed.

Lemma payload_serializes action params context t j :
  JSON_stringify params = Normal j →
  ∃ body, JSON_stringify (JObj [("action", JStr action); ("params", params);
                                ("context", context_value context);
                                ("timestamp", JNum t)]) = Normal (Some body).
Proof.
  intros Hp. destruct (context_serializes context) as [jc Hc].
  cbn [JSON_stringify]. rewrite Hp, Hc. simpl. by eexists.
Qed.

(** X29. A call through a webhook connector whose URL parses and whose
    request is answered with status code [n] (not 0): whatever the action
    and the parameters, the envelope carries the response body as raw text
    (it is not parsed) and no metadata; it is a success exactly when
    [n < 400], has the error [Webhook failed: <status message>] exactly
    when [n >= 400], and is cached exactly when it is a success. *)
Theorem webhook_outcome env st connectorId action params context c key u res n :
  connectors st !! connectorId = Some c →
  enabled c = true →
  conn_type c = "webhook" →
  cacheKey connectorId action (default_params params) = Normal key →
  responseCache st !! key = None →
  new_URL env (ToString (of_string (webhookUrl (config c)))) = Normal u →
  (∀ https options body timeout, request env https options body timeout = Responded res) →
  statusCode res = Some n →
  n ≠ 0 →
  let out := executeConnector env st connectorId action params context in
  ∃ r,
    out.1.1 = Normal r ∧
    success r = (n <? 400) ∧
    data r = Some (JStr (res_data res)) ∧
    metadata r = None ∧
    error r = (if 400 <=? n then Some ("Webhook failed: " +:+ statusMessage res)
               else None) ∧
    responseCache out.1.2 !! key
    = (if n <? 400 then Some {| response := r; timestamp := now_store env |} else None).
Proof.
  intros Hc Hon Hty Hkey Hmiss Hurl Hreq Hstatus Hn. cbv zeta.
  rewrite (executeConnector_miss _ _ _ _ _ _ _ _ Hc Hon Hkey) by (by rewrite Hmiss).
  cbv zeta. unfold dispatch. rewrite Hty. settle_decides.
  assert (∃ j, JSON_stringify (default_params params) = Normal j) as [j Hj].
  { unfold cacheKey in Hkey. destruct (JSON_stringify (default_params params)); [|done].
    by eexists. }
  destruct (payload_serializes action (default_params params) context
              (now_payload env) j Hj) as [body Hbody].
  unfold executeWebhookConnector. rewrite Hurl, Hbody. cbn [mbind completion_bind].
  rewrite Hreq.
  exists (with_duration (webhook_response res) (now_end env - now_start env)).
  assert (success (webhook_response res) = (n <? 400)) as Hs.
  { simpl. rewrite Hstatus. simpl. by destruct (Z.eqb_spec n 0). }
  assert (error (webhook_response res)
          = if 400 <=? n then Some ("Webhook failed: " +:+ statusMessage res) else None)
    as Herr.
  { simpl. rewrite Hstatus. simpl. by destruct (Z.eqb_spec n 0). }
  change (success (with_duration (webhook_response res) (now_end env - now_start env)))
    with (success (webhook_response res)).
  rewrite Hs. destruct (n <? 400) eqn:Hlt.
  - repeat split; [done..|]. simpl. by rewrite lookup_insert_eq.
  - by repeat split.
Qed.

Lemma webhook_outcome_witness :
  let hook := builtin "hook" "Hook" "" "webhook"
                {| endpoint := None; apiKey := None; command := None; filePath := None;
                   connectionString := None;
                   webhookUrl := Some "https://api.github.com/ping";
                   headers := None; timeout := None; retries := None;
                   authentication := None |} true 5 in
  let st := {| connectors := <["hook" := hook]> ∅; workflows := ∅; responseCache := ∅ |} in
  let out := executeConnector (world_of 1000 (ok_200 "{}") no_exec) st "hook" "notify"
               JNull None in
  ∃ r, out.1.1 = Normal r ∧ success r = true ∧ data r = Some (JStr "{}") ∧
       error r = None.
Proof.
  intros hook st out.
  destruct (webhook_outcome (world_of 1000 (ok_200 "{}") no_exec) st "hook" "notify"
              JNull None hook "hook:notify:null" api_github_com
              {| statusCode := Some 200; statusMessage := "OK";
                 res_headers := JObj []; res_data := "{}" |} 200)
    as (r & Hr & Hs & Hd & _ & He & _);
    [first [reflexivity | discriminate | vm_compute; reflexivity] ..|].
  exists r. repeat split; assumption.
Defined.

End ExecutorFacts.

(** ** The form of the cache key *)

Module KeyFacts.
Import Js Hub Samples Fixtures.

(** Reading undoes quoting, one code unit at a time. *)
Lemma read_quote_char c s :
  read_quoted (quote_char c +:+ s) =
    match read_quoted s with
    | Some (k, rest) => Some (String c k, rest)
    | None => None
    end.
Proof.
  destruct c as [[] [] [] [] [] [] [] []]; reflexivity.
Qed.

Lemma app_inv_head (a b c : string) : a +:+ b = a +:+ c → b = c.
Proof. induction a as [|x a IH]; [done|]. intros [= H]. auto. Qed.

Lemma read_quote_body k r : read_quoted (quote_body k +:+ dquote +:+ r) = Some (k, r).
Proof.
  induction k as [|c k IH]; [reflexivity|].
  cbn [quote_body]. rewrite ExecutorFacts.string_app_assoc, read_quote_char.
  by rewrite IH.
Qed.

(** A quoted name at the head of a text is read back as it was, whatever
    comes after it. *)
Lemma read_key_quote k r : read_key (quote k +:+ r) = Some (k, r).
Proof.
  unfold quote. rewrite !ExecutorFacts.string_app_assoc.
  change (read_quoted (quote_body k +:+ dquote +:+ r) = Some (k, r)).
  apply read_quote_body.
Qed.

(** The text of an object in terms of its members. *)
Lemma stringify_object p :
  JSON_stringify (JObj p) =
    ms ← members p ; Normal (Some ("{" +:+ join "," (member_text <$> ms) +:+ "}")).
Proof.
  set (each := fix each (l : JsObject) : Completion (list string) :=
                 match l with
                 | [] => Normal []
                 | (k, x) :: r =>
                     sx ← JSON_stringify x ;
                     sr ← each r ;
                     Normal (match sx with
                             | Some s => (quote k +:+ ":" +:+ s) :: sr
                             | None => sr
                             end)
                 end).
  change (JSON_stringify (JObj p))
    with (parts ← each p ; Normal (Some ("{" +:+ join "," parts +:+ "}"))).
  assert (each p = match members p with
                   | Normal ms => Normal (member_text <$> ms)
                   | Throw e => Throw e
                   end) as ->.
  { induction p as [|[k x] p IH]; [done|].
    change (each ((k, x) :: p))
      with (sx ← JSON_stringify x ; sr ← each p ;
            Normal (match sx with
                    | Some s => (quote k +:+ ":" +:+ s) :: sr
                    | None => sr
                    end)).
    cbn [members]. rewrite IH.
    destruct (JSON_stringify x) as [[s|]|e]; [| |done];
      by destruct (members p). }
  by destruct (members p).
Qed.

Lemma members_omap p ms :
  members p = Normal ms →
  ms = omap (fun kv : string * JsValue =>
               match JSON_stringify kv.2 with
               | Normal (Some s) => Some (kv.1, s)
               | _ => None
               end) p.
Proof.
  revert ms. induction p as [|[k x] p IH]; intros ms; cbn [members omap list_omap].
  { by intros [= <-]. }
  cbn [fst snd].
  destruct (JSON_stringify x) as [[s|]|e]; [| |done];
    (destruct (members p) as [sr|e]; [|done]); intros [= <-];
    by rewrite <-(IH sr eq_refl).
Qed.

Lemma members_written p ms : members p = Normal ms → ms.*1 = written_names p.
Proof.
  intros ->%members_omap. unfold written_names.
  induction p as [|[k x] p IH]; [done|]. cbn [omap list_omap fst snd].
  destruct (JSON_stringify x) as [[s|]|e]; [|done..].
  rewrite fmap_cons. by f_equal.
Qed.

Lemma members_elem p ms k s :
  members p = Normal ms → (k, s) ∈ ms →
  ∃ v, (k, v) ∈ p ∧ JSON_stringify v = Normal (Some s).
Proof.
  intros ->%members_omap. rewrite list_elem_of_omap.
  intros ([k' v] & Hin & Hs). cbn [fst snd] in Hs.
  destruct (JSON_stringify v) as [[s'|]|e] eqn:Hv; [|done..].
  injection Hs as <- <-. eauto.
Qed.

Lemma members_total p :
  (∀ k v, (k, v) ∈ p → ∃ o, JSON_stringify v = Normal o) →
  ∃ ms, members p = Normal ms.
Proof.
  induction p as [|[k x] p IH]; intros Hall; [by eexists|].
  cbn [members].
  destruct (Hall k x (list_elem_of_here _ _)) as [o ->].
  destruct IH as [sr ->].
  { intros k' v' Hin. eapply Hall. by apply list_elem_of_further. }
  by eexists.
Qed.

Lemma members_defined p ms k v :
  members p = Normal ms → (k, v) ∈ p → ∃ o, JSON_stringify v = Normal o.
Proof.
  revert ms. induction p as [|[k' x] p IH]; intros ms; [by intros _ ?%elem_of_nil|].
  cbn [members]. intros Hms [[= -> ->]|Hin]%elem_of_cons.
  - destruct (JSON_stringify x); [by eexists|done].
  - destruct (JSON_stringify x); [|done]. destruct (members p) eqn:Hp; [|done].
    by eapply IH.
Qed.

(** Members with the same names in the same order and the same text under
    each name are the same. *)
Lemma members_agree (ms ms' : list (string * string)) :
  ms.*1 = ms'.*1 →
  (∀ k s s', (k, s) ∈ ms → (k, s') ∈ ms' → s = s') →
  ms = ms'.
Proof.
  revert ms'. induction ms as [|[k s] ms IH]; intros [|[k' s'] ms']; try done.
  rewrite !fmap_cons. cbn [fst]. intros [= -> Hkeys] Hval.
  rewrite (Hval k' s s' (list_elem_of_here _ _) (list_elem_of_here _ _)).
  f_equal. apply IH; [done|]. intros k0 s0 s0' H1 H2.
  eapply Hval; by apply list_elem_of_further.
Qed.

Lemma tail_text_app ms t :
  foldr (fun q acc => "," +:+ q +:+ acc) "" (member_text <$> ms) +:+ t = tail_text ms t.
Proof.
  unfold tail_text. induction ms as [|m ms IH]; [done|].
  rewrite fmap_cons. cbn [foldr].
  rewrite !ExecutorFacts.string_app_assoc. by rewrite IH.
Qed.

Lemma member_text_app m t :
  member_text m +:+ t = quote m.1 +:+ ":" +:+ m.2 +:+ t.
Proof. unfold member_text. by rewrite !ExecutorFacts.string_app_assoc. Qed.

(** Two object texts that are equal list the same names in the same order,
    provided a name has the same value text in both. *)
Lemma tail_text_names ms : ∀ ms',
  (∀ k s s', (k, s) ∈ ms → (k, s') ∈ ms' → s = s') →
  tail_text ms "}" = tail_text ms' "}" →
  ms.*1 = ms'.*1.
Proof.
  unfold tail_text.
  induction ms as [|[k s] ms IH]; intros [|[k' s'] ms'] Hval; try done.
  rewrite !fmap_cons. cbn [foldr fst].
  rewrite !member_text_app. cbn [fst snd].
  intros Heq%(app_inv_head ",").
  pose proof (f_equal read_key Heq) as Hk. rewrite !read_key_quote in Hk.
  injection Hk as -> Hrest.
  rewrite (Hval k' s s' (list_elem_of_here _ _) (list_elem_of_here _ _)) in Hrest.
  apply (app_inv_head ""), app_inv_head in Hrest.
  f_equal. apply IH; [|done]. intros k0 s0 s0' H1 H2.
  eapply Hval; by apply list_elem_of_further.
Qed.

Lemma object_text_names ms ms' :
  (∀ k s s', (k, s) ∈ ms → (k, s') ∈ ms' → s = s') →
  join "," (member_text <$> ms) +:+ "}" = join "," (member_text <$> ms') +:+ "}" →
  ms.*1 = ms'.*1.
Proof.
  destruct ms as [|[k s] ms], ms' as [|[k' s'] ms']; intros Hval; try done;
    rewrite ?fmap_cons; cbn [join].
  rewrite !ExecutorFacts.string_app_assoc, !tail_text_app, !member_text_app.
  cbn [fst snd]. intros Heq.
    pose proof (f_equal read_key Heq) as Hk. rewrite !read_key_quote in Hk.
    injection Hk as -> Hrest.
    rewrite (Hval k' s s' (list_elem_of_here _ _) (list_elem_of_here _ _)) in Hrest.
    apply (app_inv_head ""), app_inv_head in Hrest.
    cbn [fst]. f_equal. apply tail_text_names; [|done]. intros k0 s0 s0' H1 H2.
    eapply Hval; by apply list_elem_of_further.
Qed.

Lemma same_map_elem (p q : JsObject) k v :
  NoDup p.*1 → NoDup q.*1 → same_map p q → (k, v) ∈ p → (k, v) ∈ q.
Proof.
  unfold same_map. intros Hp Hq Hmap Hin.
  apply (elem_of_list_to_map (M := gmap string)) in Hin; [|done].
  rewrite Hmap in Hin. by apply elem_of_list_to_map in Hin.
Qed.

(** C4, as amended. The cache key is the connector id, the action and the
    parameters as [JSON.stringify] writes them, with colons between. For
    two parameter objects that are equal as key-value maps, the keys are the
    same exactly when [JSON.stringify] writes the property names of the two
    in the same order (a property that holds [undefined] is not written and
    does not count). Key order is not canonicalised. *)
Theorem cache_key_follows_enumeration connectorId action (p q : JsObject) key :
  NoDup p.*1 →
  NoDup q.*1 →
  same_map p q →
  cacheKey connectorId action (JObj p) = Normal key →
  (cacheKey connectorId action (JObj q) = Normal key ↔ written_names p = written_names q).
Proof.
  intros Hp Hq Hmap. unfold cacheKey. rewrite !stringify_object.
  destruct (members p) as [mp|e] eqn:Hmp; [|done].
  destruct (members_total q) as [mq Hmq].
  { intros k v Hin. eapply (members_defined p); [done|].
    eapply (same_map_elem q p); [done..| |done]. by unfold same_map in *. }
  rewrite Hmq. cbn [mbind completion_bind show_json default].
  rewrite <-(members_written _ _ Hmp), <-(members_written _ _ Hmq).
  assert (∀ k s s', (k, s) ∈ mp → (k, s') ∈ mq → s = s') as Hval.
  { intros k s s' (v & Hv & Hs)%(members_elem p) (v' & Hv' & Hs')%(members_elem q);
      [|done..].
    apply (same_map_elem p q) in Hv; [|done..].
    assert (v = v') as <-; [|congruence].
    apply (elem_of_list_to_map (M := gmap string)) in Hv, Hv'; [|done..]. congruence. }
  intros [= <-]. split.
  - intros [= Heq]. do 4 apply app_inv_head in Heq.
    apply (app_inv_head "{") in Heq. by apply object_text_names.
  - intros Hkeys. by rewrite (members_agree mp mq Hkeys Hval).
Qed.

Lemma cache_key_follows_enumeration_witness :
  paged ≠ paged_late ∧
  cacheKey "github" "get" (JObj paged_late) = Normal paged_key.
Proof.
  split; [discriminate|].
  apply (cache_key_follows_enumeration "github" "get" paged paged_late paged_key).
  - compute_done.
  - compute_done.
  - unfold same_map, paged, paged_late. cbn [list_to_map foldr uncurry].
    rewrite (insert_insert_ne _ "path" "debug") by done. f_equal.
  - reflexivity.
  - reflexivity.
Defined.

End KeyFacts.

(** ** The cache sweep and the registry *)

Module RegistryFacts.
Import Js Hub Registry Samples Fixtures.

Lemma sweep_lookup now st k e :
  responseCache (sweep now st) !! k = Some e ↔
  responseCache st !! k = Some e ∧ now - timestamp e ≤ maxAge.
Proof.
  unfold sweep, maxAge. simpl. rewrite map_lookup_filter_Some. simpl.
  split; intros [? ?]; (split; [done | lia]).
Qed.

Lemma fresh_sweep env now st key :
  now ≤ now_lookup env →
  fresh env (responseCache (sweep now st) !! key) = fresh env (responseCache st !! key).
Proof.
  intros Hnow.
  destruct (responseCache st !! key) as [e|] eqn:He.
  - destruct (decide (now - timestamp e ≤ maxAge)) as [Hkeep|Hold].
    + by rewrite (proj2 (sweep_lookup now st key e)).
    + assert (responseCache (sweep now st) !! key = None) as ->.
      { apply eq_None_not_Some. intros [e' [He' Hage]%sweep_lookup].
        rewrite He in He'. injection He' as <-. lia. }
      symmetry. apply ExecutorFacts.fresh_stale. unfold maxAge in Hold. lia.
  - assert (responseCache (sweep now st) !! key = None) as ->; [|done].
    apply eq_None_not_Some. intros [e' [He' _]%sweep_lookup]. congruence.
Qed.

(** X11. The sweep never takes away an answer. A call made at or after the
    time of a sweep returns the same envelope, has the same effects and
    leaves the same registry as it would without the sweep: what the sweep
    deletes (entries older than 5 minutes) is past the 60 seconds within
    which an entry is served. *)
Theorem sweep_is_transparent now env st connectorId action params context :
  now ≤ now_lookup env →
  let swept := executeConnector env (sweep now st) connectorId action params context in
  let kept := executeConnector env st connectorId action params context in
  swept.1.1 = kept.1.1 ∧ swept.2 = kept.2 ∧
  connectors swept.1.2 = connectors kept.1.2.
Proof.
  intros Hnow. cbv zeta. unfold executeConnector.
  change (connectors (sweep now st)) with (connectors st).
  destruct (connectors st !! connectorId) as [c|]; [|done].
  destruct (enabled c); [|done]. cbn [negb].
  destruct (cacheKey _ _ _) as [key|e]; [|done].
  rewrite (fresh_sweep _ _ _ _ Hnow).
  destruct (fresh env _); [done|].
  rewrite (ExecutorFacts.dispatch_reads_connectors env (sweep now st) st) by done.
  destruct (dispatch _ _ _ _ _ _ _) as [[[r0|e0] conns] ran]; [|done].
  change (success (with_duration r0 (now_end env - now_start env)))
    with (success r0).
  by destruct (success r0).
Qed.

Lemma sweep_is_transparent_witness :
  let st := after_call registry first_ping in
  (executeConnector (world_of 2000 TimerFired no_exec) (sweep 1500 st)
     "github" "get" ping None).1.1
  = (executeConnector (world_of 2000 TimerFired no_exec) st
       "github" "get" ping None).1.1.
Proof.
  intros st.
  refine (proj1 (sweep_is_transparent 1500 (world_of 2000 TimerFired no_exec) st
                   "github" "get" ping None _)).
  vm_compute. discriminate.
Defined.

(** X12. One run of the sweep keeps exactly the entries that are at most 5
    minutes old at its clock reading (an entry of exactly 300000 ms stays),
    keeps the cache free of failed envelopes, and leaves nothing to do for
    an earlier sweep: sweeping at a later time gives the same cache whether
    or not an earlier sweep ran. *)
Theorem sweep_keeps_the_recent now st :
  (∀ k e, responseCache (sweep now st) !! k = Some e ↔
          responseCache st !! k = Some e ∧ now - timestamp e ≤ 300000) ∧
  (cache_sound st → cache_sound (sweep now st)) ∧
  (∀ later, now ≤ later → sweep later (sweep now st) = sweep later st).
Proof.
  split; [|split].
  - intros k e. apply sweep_lookup.
  - intros Hst k e [He _]%sweep_lookup. by eapply Hst.
  - intros later Hlater. unfold sweep. simpl. f_equal.
    apply map_eq. intros k. apply option_eq. intros e.
    rewrite !map_lookup_filter_Some. unfold maxAge. simpl. intuition lia.
Qed.

Lemma sweep_keeps_the_recent_witness :
  cache_sound (sweep 301007 (after_call registry first_ping)) ∧
  responseCache (sweep 301007 (after_call registry first_ping)) !! ping_key
  = responseCache (after_call registry first_ping) !! ping_key ∧
  responseCache (sweep 301008 (after_call registry first_ping)) !! ping_key = None.
Proof.
  destruct (sweep_keeps_the_recent 301007 (after_call registry first_ping))
    as (Hiff & Hsound & _).
  split; [|split].
  - apply Hsound. apply HubFacts.after_calls_sound with (cs := [first_ping]).
    intros k e. vm_compute. discriminate.
  - vm_compute. reflexivity.
  - vm_compute. reflexivity.
Defined.

(** *** Enabling and disabling *)

Lemma toggleConnector_known st connectorId c :
  connectors st !! connectorId = Some c →
  toggleConnector st connectorId
  = {| connectors := <[connectorId := flip c]> (connectors st);
       workflows := workflows st; responseCache := responseCache st |}.
Proof. intros Hc. unfold toggleConnector. by rewrite Hc. Qed.

(** X13. Toggling a connector twice gives back the hub exactly as it was;
    toggling an id that is not registered changes nothing. In either case
    the other connectors, the workflows and the response cache are left
    alone. *)
Theorem toggleConnector_twice st connectorId :
  toggleConnector (toggleConnector st connectorId) connectorId = st ∧
  (connectors st !! connectorId = None → toggleConnector st connectorId = st) ∧
  (∀ k, k ≠ connectorId →
        connectors (toggleConnector st connectorId) !! k = connectors st !! k) ∧
  workflows (toggleConnector st connectorId) = workflows st ∧
  responseCache (toggleConnector st connectorId) = responseCache st.
Proof.
  destruct (connectors st !! connectorId) as [c|] eqn:Hc.
  - rewrite (toggleConnector_known _ _ _ Hc).
    split; [|split; [done|split; [|done]]].
    + erewrite toggleConnector_known by apply lookup_insert_eq. simpl.
      rewrite insert_insert_eq. destruct st as [conns wfs cache]. simpl in *.
      f_equal. apply insert_id. rewrite Hc. f_equal.
      destruct c. unfold flip. simpl. by rewrite negb_involutive.
    + intros k Hk. simpl. by rewrite lookup_insert_ne.
  - unfold toggleConnector. rewrite Hc. unfold toggleConnector. by rewrite Hc.
Qed.

Lemma toggleConnector_twice_witness :
  toggleConnector registry "jira" = registry.
Proof.
  apply (toggleConnector_twice registry "jira"). vm_compute. reflexivity.
Defined.

(** X14. The count shown in the status bar follows the toggle: toggling a
    disabled connector raises the number of enabled connectors by one,
    toggling an enabled one lowers it by one. *)
Theorem toggleConnector_count st connectorId c :
  connectors st !! connectorId = Some c →
  enabledCount (toggleConnector st connectorId)
  = if enabled c then pred (enabledCount st) else S (enabledCount st).
Proof.
  intros Hc. rewrite (toggleConnector_known _ _ _ Hc).
  unfold enabledCount. simpl.
  destruct (enabled c) eqn:Hon.
  - rewrite map_filter_insert_False by (simpl; by rewrite Hon).
    rewrite map_filter_delete. apply map_size_delete_Some.
    exists c. by apply map_lookup_filter_Some_2.
  - rewrite map_filter_insert_True by (simpl; by rewrite Hon).
    apply map_size_insert_None, map_lookup_filter_None_2.
    right. intros c' Hc'. simpl. congruence.
Qed.

Lemma toggleConnector_count_witness :
  enabledCount (toggleConnector registry "docker") = 2%nat ∧
  enabledCount (toggleConnector registry "github") = 0%nat.
Proof.
  split.
  - rewrite (toggleConnector_count registry "docker" (docker false))
      by (vm_compute; reflexivity).
    vm_compute. reflexivity.
  - rewrite (toggleConnector_count registry "github" github)
      by (vm_compute; reflexivity).
    vm_compute. reflexivity.
Defined.

(** X15. Once an enabled connector has been toggled, every call to it is
    turned away with the [is disabled] envelope and does nothing; another
    toggle brings back the hub as it was, and with it the behaviour of
    every call. *)
Theorem toggled_off_connector_rejects env st connectorId action params context c :
  connectors st !! connectorId = Some c →
  enabled c = true →
  executeConnector env (toggleConnector st connectorId) connectorId action params context
  = (Normal (failure ("Connector '" +:+ connectorId +:+ "' is disabled")),
     toggleConnector st connectorId, []) ∧
  executeConnector env (toggleConnector (toggleConnector st connectorId) connectorId)
    connectorId action params context
  = executeConnector env st connectorId action params context.
Proof.
  intros Hc Hon. split.
  - rewrite (toggleConnector_known _ _ _ Hc). unfold executeConnector. simpl.
    rewrite lookup_insert_eq. simpl. by rewrite Hon.
  - f_equal.
    erewrite (toggleConnector_known (toggleConnector st connectorId));
      rewrite (toggleConnector_known _ _ _ Hc); [|apply lookup_insert_eq].
    simpl. rewrite insert_insert_eq. destruct st as [conns wfs cache]. simpl in *.
    f_equal. apply insert_id. rewrite Hc. f_equal.
    destruct c. unfold flip. simpl. by rewrite negb_involutive.
Qed.

Lemma toggled_off_connector_rejects_witness :
  executeConnector (world_of 1000 (ok_200 "{}") no_exec)
    (toggleConnector registry "github") "github" "get" ping None
  = (Normal (failure "Connector 'github' is disabled"),
     toggleConnector registry "github", []).
Proof.
  refine (proj1 (toggled_off_connector_rejects (world_of 1000 (ok_200 "{}") no_exec)
                   registry "github" "get" ping None github _ eq_refl)).
  vm_compute. reflexivity.
Defined.

(** *** Loading definitions *)

Lemma foldl_set_lookup {A} (key : A → string) (l : list A) (m : gmap string A) k :
  foldl (fun m x => <[key x := x]> m) m l !! k
  = match last (filter (fun x => key x = k) l) with
    | Some x => Some x
    | None => m !! k
    end.
Proof.
  revert m. induction l as [|x l IH]; intros m; [done|].
  simpl. rewrite IH. rewrite filter_cons.
  destruct (decide (key x = k)) as [Hk|Hk].
  - rewrite last_cons. destruct (last (filter _ l)); [done|].
    by rewrite <- Hk, lookup_insert_eq.
  - destruct (last (filter _ l)); [done|]. by rewrite lookup_insert_ne.
Qed.

(** X16. [processConnectorConfig] is an upsert in which the last
    definition wins: after it, the connector stored under an id is the last
    definition in the configuration with that id, and where the
    configuration has none the stored connector is the one from before. The
    response cache is not touched (entries of a replaced connector stay). *)
Theorem processConnectorConfig_last_wins st config k :
  connectors (processConnectorConfig st config) !! k
  = match last_with_id k (default [] (cfg_connectors config)) with
    | Some c => Some c
    | None => connectors st !! k
    end ∧
  responseCache (processConnectorConfig st config) = responseCache st.
Proof.
  split; [|done]. unfold processConnectorConfig, last_with_id. simpl.
  apply foldl_set_lookup.
Qed.

(** X17. [loadBuiltinConnectors] stores the five built-in definitions
    under their ids, replacing whatever was stored there, and keeps every
    connector with another id. After [clearConnectors] the registry holds
    the built-ins and nothing else, exactly one of them (github) enabled,
    there are no workflows, and the response cache is what it was. *)
Theorem loadBuiltinConnectors_overrides st k :
  connectors (loadBuiltinConnectors st) !! k
  = match List.find (fun b => bool_decide (conn_id b = k)) builtins with
    | Some b => Some b
    | None => connectors st !! k
    end ∧
  connectors (clearConnectors st) !! k
  = List.find (fun b => bool_decide (conn_id b = k)) builtins ∧
  workflows (clearConnectors st) = ∅ ∧
  responseCache (clearConnectors st) = responseCache st ∧
  enabledCount (clearConnectors st) = 1%nat.
Proof.
  assert (∀ m : gmap string MCPConnector,
            <["database" := database]> (<["docker" := docker_cli]> (<["slack" := slack]>
              (<["jira" := jira]> (<["github" := github]> m)))) !! k
            = match List.find (fun b => bool_decide (conn_id b = k)) builtins with
              | Some b => Some b
              | None => m !! k
              end) as Hload.
  { intros m. unfold builtins. cbn [List.find].
    change (conn_id github) with "github". change (conn_id jira) with "jira".
    change (conn_id slack) with "slack". change (conn_id docker_cli) with "docker".
    change (conn_id database) with "database".
    rewrite !lookup_insert.
    repeat (case_decide; case_bool_decide; try congruence); try done; subst; done. }
  split; [apply Hload|]. split; [|split; [done|split; [done|]]].
  - unfold clearConnectors, loadBuiltinConnectors. cbn [connectors].
    rewrite Hload, lookup_empty. by destruct (List.find _ builtins).
  - vm_compute. reflexivity.
Qed.

(** *** Listing and counting *)

Lemma place_Permutation c l : place c l ≡ₚ c :: l.
Proof.
  induction l as [|d l IH]; simpl; [done|].
  destruct (priority d <=? priority c); [done|].
  rewrite IH. apply Permutation_swap.
Qed.

Lemma place_head_priority c l a :
  head (place c l) = Some a →
  a = c ∨ (head l = Some a ∧ priority c < priority a).
Proof.
  destruct l as [|d l]; simpl.
  - intros [= <-]. by left.
  - destruct (Z.leb_spec (priority d) (priority c)); simpl; intros [= <-]; auto.
Qed.

Lemma place_Sorted c l :
  Sorted (fun a b => priority b ≤ priority a) l →
  Sorted (fun a b => priority b ≤ priority a) (place c l).
Proof.
  induction 1 as [|d l Hl IH Hd]; simpl.
  - repeat constructor.
  - destruct (Z.leb_spec (priority d) (priority c)).
    + repeat constructor; done.
    + constructor; [done|].
      destruct (place c l) as [|a l'] eqn:Hp; constructor.
      destruct (place_head_priority c l a) as [->|[Ha _]]; [by rewrite Hp|lia|].
      destruct l as [|b l'']; [done|]. injection Ha as ->.
      by inversion Hd.
Qed.

Lemma place_filter (p : Z) c l :
  filter (fun a => priority a = p) (place c l)
  = filter (fun a => priority a = p) (c :: l).
Proof.
  induction l as [|d l IH]; simpl; [done|].
  destruct (Z.leb_spec (priority d) (priority c)); [done|].
  rewrite (filter_cons _ d), IH, !filter_cons.
  repeat case_decide; try done; lia.
Qed.

(** X18. [listConnectors] returns the connectors in descending order of
    priority; it returns each of them exactly once (the result is a
    permutation of the values); and connectors of equal priority keep the
    order they have in the registry. *)
Theorem listConnectors_sorted values :
  Sorted (fun a b => priority b ≤ priority a) (listConnectors values) ∧
  listConnectors values ≡ₚ values ∧
  ∀ p, filter (fun c => priority c = p) (listConnectors values)
       = filter (fun c => priority c = p) values.
Proof.
  unfold listConnectors.
  induction values as [|c values (Hsorted & Hperm & Hstable)]; simpl.
  { by repeat constructor. }
  split; [by apply place_Sorted|]. split.
  - by rewrite place_Permutation, Hperm.
  - intros p. by rewrite place_filter, !filter_cons, Hstable.
Qed.

Lemma put_keys byType type v :
  (put byType type v).*1 = if decide (type ∈ byType.*1) then byType.*1
                           else byType.*1 ++ [type].
Proof.
  induction byType as [|[k n] l IH].
  - destruct (decide (type ∈ ([] : list (string * Tally)).*1)) as [Hin|_]; [|done].
    by apply elem_of_nil in Hin.
  - destruct (decide (type ∈ ((k, n) :: l).*1)) as [Hin|Hnin];
      cbn [put]; destruct (decide (k = type)) as [->|Hk];
      rewrite !fmap_cons in *; cbn [fst] in *; rewrite ?IH.
    + done.
    + rewrite decide_True; [done|].
      apply elem_of_cons in Hin as [?|?]; [congruence|done].
    + exfalso. apply Hnin. apply list_elem_of_here.
    + rewrite decide_False; [done|].
      intros ?. apply Hnin. by apply list_elem_of_further.
Qed.

Lemma own_put byType type v t :
  own (put byType type v) t = if decide (type = t) then Some v else own byType t.
Proof.
  induction byType as [|[k n] l IH]; cbn [put own].
  - by destruct (decide (type = t)).
  - destruct (decide (k = type)) as [->|Hk]; cbn [own].
    + by destruct (decide (type = t)).
    + rewrite IH. destruct (decide (k = t)) as [->|?]; [|done].
      by rewrite decide_False.
Qed.

Lemma own_None byType t : t ∉ byType.*1 → own byType t = None.
Proof.
  induction byType as [|[k n] l IH]; [done|]. rewrite fmap_cons, not_elem_of_cons.
  cbn [fst own]. intros [Hne Hnin]. rewrite decide_False by done. auto.
Qed.

Lemma put_sum byType type v :
  foldr Z.add 0 (count_of <$> (put byType type v).*2)
  = foldr Z.add 0 (count_of <$> byType.*2)
    - count_of (default (Count 0) (own byType type)) + count_of v.
Proof.
  induction byType as [|[k n] l IH]; cbn [put own].
  - simpl. lia.
  - destruct (decide (k = type)) as [->|Hk]; rewrite !fmap_cons; cbn [snd foldr default from_option id].
    + lia.
    + rewrite IH. lia.
Qed.

Lemma put_counts byType type n :
  Forall (fun v => ∃ m, v = Count m) byType.*2 →
  Forall (fun v => ∃ m, v = Count m) (put byType type (Count n)).*2.
Proof.
  induction byType as [|[k w] l IH]; cbn [put].
  - intros _. apply Forall_singleton. by eexists.
  - rewrite fmap_cons. intros [Hw Hl]%Forall_cons.
    destruct (decide (k = type)); rewrite fmap_cons; apply Forall_cons.
    + split; [by eexists|done].
    + split; [done|auto].
Qed.

Lemma filter_none {A} (P : A → Prop) `{∀ x, Decision (P x)} (l : list A) :
  (∀ x, x ∈ l → ¬ P x) → filter P l = [].
Proof.
  induction l as [|x l IH]; intros Hno; [done|].
  rewrite filter_cons, decide_False by (apply Hno, list_elem_of_here).
  apply IH. intros y Hy. by apply Hno, list_elem_of_further.
Qed.

(** The counting invariant of the loop of [getConnectorStats]. *)
Lemma byType_fold inherited (values : list MCPConnector) :
  (∀ c, c ∈ values → conn_type c ≠ "__proto__" ∧ inherited (conn_type c) = None) →
  let byType := foldl (fun byType c => bump inherited byType (conn_type c)) [] values in
  NoDup byType.*1 ∧
  (∀ t, t ∈ byType.*1 ↔ ∃ c, c ∈ values ∧ conn_type c = t) ∧
  (∀ t, t ∈ byType.*1 →
        own byType t = Some (Count (Z.of_nat (length (filter (fun c => conn_type c = t) values))))) ∧
  Forall (fun v => ∃ m, v = Count m) byType.*2 ∧
  foldr Z.add 0 (count_of <$> byType.*2) = Z.of_nat (length values).
Proof.
  cbv zeta. induction values as [|c values IH] using rev_ind; intros Hord.
  { cbn [foldl]. split; [constructor|]. split; [|split; [|split]]; try done.
    - intros t. split; [by intros ?%elem_of_nil|]. by intros (c & ?%elem_of_nil & _).
    - by intros t ?%elem_of_nil. }
  rewrite foldl_app. cbn [foldl].
  destruct IH as (Hnd & Hin & Hown & Hcounts & Hsum).
  { intros c' Hc'. apply Hord, elem_of_app. by left. }
  destruct (Hord c) as [Hproto Hinh].
  { apply elem_of_app. right. apply list_elem_of_here. }
  set (byType := foldl (fun byType c => bump inherited byType (conn_type c)) [] values) in *.
  assert (next_tally inherited byType (conn_type c)
          = Count (Z.of_nat (length (filter (fun c' => conn_type c' = conn_type c) values)) + 1))
    as Hnext.
  { unfold next_tally. destruct (decide (conn_type c ∈ byType.*1)) as [Hc|Hc].
    - rewrite (Hown _ Hc). f_equal.
      by destruct (_ =? 0) eqn:Hz; [apply Z.eqb_eq in Hz as ->|].
    - rewrite (own_None _ _ Hc), Hinh.
      assert (filter (fun c' => conn_type c' = conn_type c) values = []) as ->; [|done].
      apply filter_none. intros c' Hc' Heq. apply Hc, Hin. eauto. }
  unfold bump. rewrite decide_False by done. rewrite Hnext.
  split; [|split; [|split; [|split]]].
  - rewrite put_keys. case_decide; [done|].
    apply NoDup_app. split; [done|]. split; [|apply NoDup_singleton].
    intros x Hx ->%list_elem_of_singleton. done.
  - intros t. rewrite put_keys. case_decide as Hc.
    + rewrite Hin. split.
      * intros (c' & ? & ?). exists c'. split; [|done]. apply elem_of_app. by left.
      * intros (c' & [? | ->%list_elem_of_singleton]%elem_of_app & Ht); [by exists c'|].
        subst t. by apply Hin.
    + rewrite elem_of_app, list_elem_of_singleton, Hin. split.
      * intros [(c' & ? & ?) | ->].
        -- exists c'. split; [|done]. apply elem_of_app. by left.
        -- exists c. split; [|done]. apply elem_of_app. right. apply list_elem_of_here.
      * intros (c' & [? | ->%list_elem_of_singleton]%elem_of_app & Ht);
          [left; by exists c'|by right].
  - intros t Ht. rewrite own_put, filter_app, length_app, filter_cons, filter_nil.
    destruct (decide (conn_type c = t)) as [<-|Hne].
    + simpl. f_equal. f_equal. lia.
    + simpl. rewrite Nat.add_0_r. apply Hown.
      rewrite put_keys in Ht. case_decide; [done|].
      apply elem_of_app in Ht as [?|?%list_elem_of_singleton]; [done|congruence].
  - by apply put_counts.
  - rewrite put_sum, Hsum, length_app. cbn [length count_of].
    destruct (decide (conn_type c ∈ byType.*1)) as [Hc|Hc].
    + rewrite (Hown _ Hc). cbn [default from_option id count_of]. lia.
    + rewrite (own_None _ _ Hc). cbn [default from_option id count_of].
      assert (filter (fun c' => conn_type c' = conn_type c) values = []) as ->; [|simpl; lia].
      apply filter_none. intros c' Hc' Heq. apply Hc, Hin. eauto.
Qed.

Lemma filter_shorter {A} (f : A → bool) (l : list A) :
  (length (List.filter f l) ≤ length l)%nat.
Proof. induction l as [|x l IH]; simpl; [lia|]. destruct (f x); simpl; lia. Qed.

(** X19. [getConnectorStats]: the number of enabled connectors is at most
    the total. When no connector has a type that [Object.prototype] has a
    property for, [byType] has one key for each type that occurs and no
    other, the count under a type is the number of connectors of that type,
    and the counts add up to the total. A single connector whose type is
    such a name is counted as a text, the inherited value with [1] put
    after it, and under [__proto__] it is not counted at all. *)
Theorem getConnectorStats_counts inherited values :
  let stats := getConnectorStats inherited values in
  (cs_enabled stats ≤ cs_total stats)%nat ∧
  ((∀ c, c ∈ values → conn_type c ≠ "__proto__" ∧ inherited (conn_type c) = None) →
   NoDup (cs_byType stats).*1 ∧
   (∀ t, t ∈ (cs_byType stats).*1 ↔ ∃ c, c ∈ values ∧ conn_type c = t) ∧
   (∀ t, t ∈ (cs_byType stats).*1 →
         own (cs_byType stats) t
         = Some (Count (Z.of_nat (length (filter (fun c => conn_type c = t) values))))) ∧
   ∃ ns, (cs_byType stats).*2 = Count <$> ns ∧
         foldr Z.add 0 ns = Z.of_nat (cs_total stats)) ∧
  (∀ c text, values = [c] → conn_type c ≠ "__proto__" →
             inherited (conn_type c) = Some text →
             cs_byType stats = [(conn_type c, Text (text +:+ "1"))]) ∧
  (∀ c, values = [c] → conn_type c = "__proto__" → cs_byType stats = []).
Proof.
  cbv zeta. unfold getConnectorStats. cbn [cs_total cs_enabled cs_byType].
  split; [apply filter_shorter|]. split; [|split].
  - intros Hord. destruct (byType_fold inherited values Hord)
      as (Hnd & Hin & Hown & Hcounts & Hsum).
    split; [done|]. split; [done|]. split; [done|].
    set (byType := foldl _ _ _) in *. clearbody byType.
    exists (count_of <$> byType.*2). split; [|done].
    clear -Hcounts. induction Hcounts as [|v l [m ->] _ IH]; [done|].
    rewrite !fmap_cons. by f_equal.
  - intros c text -> Hproto Hinh. cbn [foldl]. unfold bump, next_tally.
    rewrite decide_False by done. cbn [own put]. by rewrite Hinh.
  - intros c -> Hproto. cbn [foldl]. unfold bump. by rewrite decide_True.
Qed.

Lemma getConnectorStats_counts_witness :
  own (cs_byType (getConnectorStats object_prototype builtins)) "api" = Some (Count 2) ∧
  cs_byType (getConnectorStats object_prototype
               [builtin "odd" "Odd" "" "constructor" (bare_config 1 1) true 1])
  = [("constructor", Text "function Object() { [native code] }1")].
Proof.
  destruct (getConnectorStats_counts object_prototype builtins)
    as (_ & Hcounts & _ & _).
  destruct (getConnectorStats_counts object_prototype
              [builtin "odd" "Odd" "" "constructor" (bare_config 1 1) true 1])
    as (_ & _ & Hodd & _).
  split.
  - destruct Hcounts as (_ & _ & Hown & _).
    + intros c Hc. set_unfold in Hc.
      destruct Hc as [->|[->|[->|[->|[->|[]]]]]]; by vm_compute.
    + apply (Hown "api"). compute_done.
  - apply (Hodd _ "function Object() { [native code] }" eq_refl); [discriminate|reflexivity].
Defined.

Lemma unique_from_spec xs : ∀ seen,
  NoDup (unique_from seen xs) ∧
  (∀ x, x ∈ unique_from seen xs ↔ x ∈ xs ∧ x ∉ seen) ∧
  sublist (unique_from seen xs) xs.
Proof.
  induction xs as [|y xs IH]; intros seen; cbn [unique_from].
  { split; [constructor|]. split; [|done]. intros x. split; [by intros ?%elem_of_nil|].
    by intros [?%elem_of_nil _]. }
  destruct (decide (y ∈ seen)) as [Hy|Hy].
  - destruct (IH seen) as (Hnd & Hin & Hsub).
    split; [done|]. split; [|by apply sublist_cons].
    intros x. rewrite Hin, elem_of_cons. split; [intros [? ?]; auto|].
    intros [[->|?] ?]; [done|auto].
  - destruct (IH (y :: seen)) as (Hnd & Hin & Hsub).
    split; [|split; [|by apply sublist_skip]].
    + apply NoDup_cons. split; [|done]. rewrite Hin. intros [_ Hno].
      apply Hno, list_elem_of_here.
    + intros x. rewrite !elem_of_cons, Hin, elem_of_cons. split.
      * intros [->|[? Hno]]; [auto|]. split; [auto|]. intros ?. apply Hno. auto.
      * intros [[->|?] Hno]; [auto|]. destruct (decide (x = y)) as [->|Hxy]; [auto|].
        right. split; [done|]. intros [?|?]; done.
Qed.

Lemma unique_from_ext xs : ∀ seen seen',
  (∀ x, x ∈ seen ↔ x ∈ seen') → unique_from seen xs = unique_from seen' xs.
Proof.
  induction xs as [|y xs IH]; intros seen seen' Hsame; [done|]. cbn [unique_from].
  destruct (decide (y ∈ seen)) as [Hy|Hy].
  - rewrite decide_True by (by apply Hsame). by apply IH.
  - rewrite decide_False by (by rewrite <-Hsame). f_equal. apply IH.
    intros x. rewrite !elem_of_cons. by rewrite Hsame.
Qed.

Lemma unique_from_app xs ys : ∀ seen,
  unique_from seen (xs ++ ys)
  = unique_from seen xs ++ unique_from (xs ++ seen) ys.
Proof.
  induction xs as [|y xs IH]; intros seen; [done|].
  cbn [app unique_from]. destruct (decide (y ∈ seen)) as [Hy|Hy].
  - rewrite IH. f_equal. apply unique_from_ext. intros x.
    rewrite !elem_of_app, elem_of_cons, elem_of_app. split; [tauto|].
    intros [->|[?|?]]; tauto.
  - rewrite IH. cbn [app]. f_equal. f_equal. apply unique_from_ext. intros x.
    rewrite !elem_of_app, !elem_of_cons, elem_of_app. tauto.
Qed.

Lemma unique_length xs : length (unique xs) = length (remove_dups xs).
Proof.
  apply Permutation_length, NoDup_Permutation.
  - apply unique_from_spec.
  - apply NoDup_remove_dups.
  - intros x. rewrite elem_of_remove_dups.
    destruct (unique_from_spec xs []) as (_ & Hin & _). unfold unique. rewrite Hin.
    split; [by intros [? _]|]. intros ?. split; [done|]. by intros ?%elem_of_nil.
Qed.

(** X20. [getWorkflowStats]: the number of enabled workflows is at most
    the total, and [triggers] lists every trigger of every workflow exactly
    once, in the order in which the triggers first occur: a trigger stands
    at the position that is the number of different triggers before its
    first occurrence. *)
Theorem getWorkflowStats_triggers values :
  let stats := getWorkflowStats values in
  let all := concat (triggers <$> values) in
  (ws_enabled stats ≤ ws_total stats)%nat ∧
  NoDup (ws_triggers stats) ∧
  (∀ t, t ∈ ws_triggers stats ↔ ∃ w, w ∈ values ∧ t ∈ triggers w) ∧
  sublist (ws_triggers stats) all ∧
  (∀ before t after,
     all = before ++ t :: after → t ∉ before →
     ws_triggers stats !! length (remove_dups before) = Some t).
Proof.
  cbv zeta. unfold getWorkflowStats. cbn [ws_total ws_enabled ws_triggers].
  destruct (unique_from_spec (concat (triggers <$> values)) [])
    as (Hnd & Hin & Hsub).
  split; [apply filter_shorter|]. split; [done|]. split; [|split; [done|]].
  - intros t. unfold unique. rewrite Hin, list_elem_of_In, in_concat. split.
    + intros [(l & Hl & Ht) _]. apply list_elem_of_In in Hl, Ht.
      apply list_elem_of_fmap in Hl as (w & -> & Hw). eauto.
    + intros (w & Hw & Ht). split; [|by intros ?%elem_of_nil].
      exists (triggers w). split; apply list_elem_of_In; [|done].
      apply list_elem_of_fmap. eauto.
  - intros before t after -> Hnew. unfold unique.
    rewrite unique_from_app. cbn [unique_from].
    rewrite decide_False by (rewrite app_nil_r; exact Hnew).
    rewrite <-unique_length. unfold unique. by rewrite list_lookup_middle.
Qed.

End RegistryFacts.

(** ** More on the workflow engine *)

Module WorkflowFacts.
Import Js Hub Engine Registry Shapes Samples Fixtures.

Lemma find_mid (l1 : list WorkflowStep) s l2 :
  NoDup (step_id <$> (l1 ++ s :: l2)) →
  List.find (fun x => bool_decide (step_id x = step_id s)) (l1 ++ s :: l2) = Some s.
Proof.
  induction l1 as [|a l1 IH]; cbn [app List.find]; intros Hnd.
  - by rewrite bool_decide_eq_true_2.
  - rewrite fmap_cons in Hnd. apply NoDup_cons in Hnd as [Ha Hnd].
    case_bool_decide as Heq; [|by apply IH].
    exfalso. apply Ha. rewrite Heq. apply list_elem_of_fmap. exists s.
    split; [done|]. apply elem_of_app. right. apply list_elem_of_here.
Qed.

Lemma findIndex_mid (l1 : list WorkflowStep) s l2 :
  NoDup (step_id <$> (l1 ++ s :: l2)) →
  findIndex (l1 ++ s :: l2) (step_id s) = Z.of_nat (length l1).
Proof.
  induction l1 as [|a l1 IH]; cbn [app findIndex length]; intros Hnd.
  - by rewrite bool_decide_eq_true_2.
  - rewrite fmap_cons in Hnd. apply NoDup_cons in Hnd as [Ha Hnd].
    case_bool_decide as Heq.
    + exfalso. apply Ha. rewrite Heq. apply list_elem_of_fmap. exists s.
      split; [done|]. apply elem_of_app. right. apply list_elem_of_here.
    + rewrite (IH Hnd). cbv zeta.
      destruct (Z.ltb_spec (Z.of_nat (length l1)) 0); lia.
Qed.

Lemma id_at_first w : id_at w 0 = step_id <$> head (steps w).
Proof. unfold id_at. simpl. by destruct (steps w). Qed.

Lemma id_at_next w (l1 : list WorkflowStep) s l2 :
  steps w = l1 ++ s :: l2 →
  id_at w (Z.of_nat (length l1) + 1) = step_id <$> head l2.
Proof.
  intros Hsteps. unfold id_at.
  destruct (Z.ltb_spec (Z.of_nat (length l1) + 1) 0); [lia|].
  rewrite Hsteps.
  replace (Z.to_nat (Z.of_nat (length l1) + 1)) with (length l1 + 1)%nat by lia.
  rewrite lookup_app_r by lia.
  replace (length l1 + 1 - length l1)%nat with 1%nat by lia.
  by destruct l2.
Qed.

(** Outside the condition case the [switch] is left with a result, or by
    the exception of [JSON.stringify] on the variables. *)
Lemma switch_plain senv st w context results step :
  step_type step ≠ "condition" →
  (∃ r st', switch senv st w context results step = Result r st') ∨
  (∃ e, switch senv st w context results step = Thrown e st ∧ ¬ variables_serialize w).
Proof.
  intros Hty. unfold switch.
  destruct (decide (step_type step = "connector")) as [Hc|Hc].
  { destruct (nonempty (connectorId step)) as [cid|]; [|eauto].
    destruct (executeConnector _ _ _ _ _ _) as [[[r|e] st'] fx] eqn:He; [eauto|].
    right. apply ExecutorFacts.executeConnector_Throw in He as [He ->].
    exists e. split; [done|]. intros [json Hjson]. congruence. }
  destruct (decide (step_type step = "ai")) as [Hai|Hai].
  { destruct (nonempty (prompt step)); [|eauto].
    destruct (getCodeCompletion _ _ _ _); eauto. }
  rewrite decide_False by done.
  destruct (decide (step_type step = "user")) as [Hu|Hu]; eauto.
Qed.

(** The run of a straight-line workflow from any position. *)
Lemma loop_straight world w context :
  straight_line w →
  ∀ rest before fuel k st results ran,
    steps w = before ++ rest →
    (length rest ≤ fuel)%nat →
    ∃ r st' taken news,
      loop fuel world k w context st results ran (step_id <$> head rest)
        = Some (r, st', ran ++ taken) ∧
      taken `prefix_of` rest ∧
      workflowResults r = Some (results ++ news) ∧
      (wr_success r = true →
       r = completed w (results ++ news) ∧ taken = rest ∧
       stepId <$> news = step_id <$> rest) ∧
      (wr_success r = false →
       ∃ s, s ∈ rest ∧ (is_required s = true ∨ ¬ variables_serialize w)).
Proof.
  intros [Hnd Hplain].
  induction rest as [|s rest IH]; intros before fuel k st results ran Hsteps Hfuel.
  { exists (completed w results), st, [], []. rewrite !app_nil_r.
    split; [by destruct fuel|]. by repeat split. }
  destruct fuel as [|fuel]; [simpl in Hfuel; lia|].
  assert (s ∈ steps w) as Hs.
  { rewrite Hsteps. apply elem_of_app. right. apply list_elem_of_here. }
  destruct (Hplain s Hs) as [Hid Hty].
  assert (find_step w (step_id s) = Some s) as Hfind.
  { unfold find_step. rewrite Hsteps. apply find_mid. by rewrite <- Hsteps. }
  cbn [head fmap option_fmap option_map].
  rewrite (EngineFacts.loop_step _ _ _ _ _ _ _ _ _ _ Hid Hfind).
  unfold turn.
  destruct (switch_plain (world k) st w context results s Hty)
    as [(r & st1 & ->)|(e & -> & Hthrow)].
  - unfold after_switch.
    destruct (negb (success r) && is_required s) eqn:Hhalt.
    + eexists _, st1, [s], [entry s r]. split; [done|].
      split; [by exists rest|]. split; [done|]. split; [done|]. intros _.
      exists s. split; [apply list_elem_of_here|]. left.
      by apply andb_true_iff in Hhalt as [_ ?].
    + rewrite Hsteps, findIndex_mid by (by rewrite <- Hsteps).
      rewrite (id_at_next w before s rest Hsteps).
      destruct (IH (before ++ [s]) fuel (S k) st1 (results ++ [entry s r])
                  (ran ++ [s])) as (r' & st' & taken & news & Hrun & Hpre & Hres & Hok & Hnot).
      { by rewrite <- app_assoc. }
      { simpl in Hfuel. lia. }
      exists r', st', (s :: taken), (entry s r :: news).
      rewrite Hrun, Hres, <- !app_assoc. split; [done|].
      split; [by apply prefix_cons|]. split; [done|]. split.
      * intros Hsucc. destruct (Hok Hsucc) as (-> & -> & Hids).
        rewrite <- app_assoc. split; [done|]. split; [done|].
        rewrite !fmap_cons. by rewrite Hids.
      * intros Hfail. destruct (Hnot Hfail) as (s' & Hs' & Hwhy).
        exists s'. split; [by apply list_elem_of_further|done].
  - eexists _, st, [s], []. rewrite app_nil_r. split; [done|].
    split; [by exists rest|]. split; [done|]. split; [done|]. intros _.
    exists s. split; [apply list_elem_of_here|]. by right.
Qed.

(** X21. A workflow whose step ids are distinct and not empty and which has
    no condition step always finishes, within as many turns as it has
    steps: the steps that ran are a prefix of the step list in array order,
    each at most once; and when the run succeeds every step ran and the log
    has one entry per step, in order. *)
Theorem straight_line_workflow_finishes fuel world st workflowId context w :
  workflows st !! workflowId = Some w →
  wf_enabled w = true →
  straight_line w →
  (length (steps w) ≤ fuel)%nat →
  ∃ r st' ran results,
    executeWorkflow fuel world st workflowId context = Some (r, st', ran) ∧
    ran `prefix_of` steps w ∧
    workflowResults r = Some results ∧
    (wr_success r = true →
     ran = steps w ∧ stepId <$> results = step_id <$> steps w).
Proof.
  intros Hw Hon Hline Hfuel.
  destruct (loop_straight world w context Hline (steps w) [] fuel 0%nat st [] []
              eq_refl Hfuel) as (r & st' & taken & news & Hrun & Hpre & Hres & Hok & _).
  exists r, st', taken, news.
  unfold executeWorkflow. rewrite Hw, Hon. cbn [negb].
  rewrite id_at_first. split; [done|]. split; [done|]. split; [done|].
  intros Hsucc. by destruct (Hok Hsucc) as (_ & ? & ?).
Qed.

(** X22. When such a workflow has no required step and its variables can
    be serialized, it always completes with [success = true] and runs
    every step, however many of the steps fail. *)
Theorem optional_failures_do_not_stop fuel world st workflowId context w :
  workflows st !! workflowId = Some w →
  wf_enabled w = true →
  straight_line w →
  (∀ s, s ∈ steps w → is_required s = false) →
  variables_serialize w →
  (length (steps w) ≤ fuel)%nat →
  ∃ st' results,
    executeWorkflow fuel world st workflowId context
      = Some (completed w results, st', steps w) ∧
    stepId <$> results = step_id <$> steps w.
Proof.
  intros Hw Hon Hline Hopt Hser Hfuel.
  destruct (loop_straight world w context Hline (steps w) [] fuel 0%nat st [] []
              eq_refl Hfuel) as (r & st' & taken & news & Hrun & Hpre & Hres & Hok & Hnot).
  destruct (wr_success r) eqn:Hsucc.
  - destruct (Hok eq_refl) as (-> & -> & Hids). exists st', news.
    unfold executeWorkflow. rewrite Hw, Hon. cbn [negb].
    by rewrite id_at_first, Hrun.
  - destruct (Hnot eq_refl) as (s & Hs & [Hreq|Hno]); [|done].
    rewrite (Hopt s Hs) in Hreq. done.
Qed.

Lemma chores_straight : straight_line chores.
Proof.
  split; [compute_done|]. intros s Hs. set_unfold in Hs.
  destruct Hs as [->|[->|[->|[]]]]; by split.
Qed.

Lemma straight_line_workflow_finishes_witness :
  ∃ r st' ran results,
    executeWorkflow 3 (steady (Normal (JBool true))) tooling "chores" here
      = Some (r, st', ran) ∧
    ran `prefix_of` steps chores ∧
    workflowResults r = Some results ∧
    (wr_success r = true →
     ran = steps chores ∧ stepId <$> results = step_id <$> steps chores).
Proof.
  apply (straight_line_workflow_finishes 3 (steady (Normal (JBool true))) tooling
           "chores" here chores).
  - vm_compute. reflexivity.
  - reflexivity.
  - apply chores_straight.
  - simpl. lia.
Defined.

Lemma optional_failures_do_not_stop_witness :
  ∃ st' results,
    executeWorkflow 3 (steady (Normal (JBool true))) tooling "chores" here
      = Some (completed chores results, st', steps chores) ∧
    stepId <$> results = ["build"; "notes"; "approve"].
Proof.
  apply (optional_failures_do_not_stop 3 (steady (Normal (JBool true))) tooling
           "chores" here chores).
  - vm_compute. reflexivity.
  - reflexivity.
  - apply chores_straight.
  - intros s Hs. set_unfold in Hs. by destruct Hs as [->|[->|[->|[]]]].
  - eexists. vm_compute. reflexivity.
  - simpl. lia.
Defined.

(** X23. [executeWorkflow] on an id that is not registered, on a disabled
    workflow, or on a workflow without steps runs no step and leaves the
    hub as it is, even with no fuel at all: the first two return the failed
    envelopes [not found] and [is disabled] without a result log, the third
    the completed envelope with an empty log. *)
Theorem idle_workflow_runs fuel world st workflowId context :
  (workflows st !! workflowId = None →
   executeWorkflow fuel world st workflowId context
   = Some (wf_failure ("Workflow '" +:+ workflowId +:+ "' not found"), st, [])) ∧
  (∀ w, workflows st !! workflowId = Some w →
        (wf_enabled w = false →
         executeWorkflow fuel world st workflowId context
         = Some (wf_failure ("Workflow '" +:+ workflowId +:+ "' is disabled"), st, [])) ∧
        (wf_enabled w = true → steps w = [] →
         executeWorkflow fuel world st workflowId context
         = Some (completed w [], st, []))).
Proof.
  unfold executeWorkflow. split.
  - by intros ->.
  - intros w ->. split.
    + by intros ->.
    + intros -> Hsteps. cbn [negb]. rewrite id_at_first, Hsteps. by destruct fuel.
Qed.

Lemma idle_workflow_runs_witness :
  executeWorkflow 0 (steady (Normal (JBool true))) studio "release" here
  = Some (wf_failure "Workflow 'release' not found", studio, []).
Proof.
  apply (idle_workflow_runs 0 (steady (Normal (JBool true))) studio "release" here).
  vm_compute. reflexivity.
Defined.

(** X24. A condition step that hands its own id back to the loop makes the
    workflow run forever: when the first step is a condition step and in
    every turn the pointer it chooses is its own id, [executeWorkflow]
    returns on no amount of fuel. *)
Theorem condition_self_loop_never_returns world st workflowId context w first rest :
  workflows st !! workflowId = Some w →
  wf_enabled w = true →
  steps w = first :: rest →
  step_id first ≠ "" →
  step_type first = "condition" →
  (∀ k results, chosen (world k) w results first = Some (step_id first)) →
  ∀ fuel, executeWorkflow fuel world st workflowId context = None.
Proof.
  intros Hw Hon Hsteps Hid Hty Hself fuel.
  unfold executeWorkflow. rewrite Hw, Hon. cbn [negb].
  rewrite id_at_first, Hsteps. cbn [head fmap option_fmap option_map].
  assert (find_step w (step_id first) = Some first) as Hfind.
  { unfold find_step. rewrite Hsteps. simpl. by rewrite bool_decide_eq_true_2. }
  generalize 0%nat ([] : list StepEntry) ([] : list WorkflowStep).
  induction fuel as [|fuel IH]; intros k results ran.
  - cbn [loop]. by rewrite EngineFacts.nonempty_Some, Hfind.
  - rewrite (EngineFacts.loop_step _ _ _ _ _ _ _ _ _ _ Hid Hfind).
    unfold turn. rewrite (EngineFacts.switch_condition _ _ _ _ _ _ Hty). cbv zeta.
    fold (chosen (world k) w results first). rewrite Hself. apply IH.
Qed.

Lemma condition_self_loop_never_returns_witness :
  executeWorkflow 1000 (steady (Normal (JBool false))) studio "spinning" here = None.
Proof.
  apply (condition_self_loop_never_returns (steady (Normal (JBool false))) studio
           "spinning" here spinning spin [approve]);
    first [reflexivity | discriminate | vm_compute; reflexivity | intros; reflexivity].
Defined.

(** X25. The move to the next position looks the current step up by id.
    When the first two steps share an id and the first is a user step, the
    loop comes back to the first step after every turn: the workflow never
    returns and the second step is never reached. *)
Theorem duplicate_id_never_returns world st workflowId context w first second rest :
  workflows st !! workflowId = Some w →
  wf_enabled w = true →
  steps w = first :: second :: rest →
  step_id first ≠ "" →
  step_id second = step_id first →
  step_type first = "user" →
  ∀ fuel, executeWorkflow fuel world st workflowId context = None.
Proof.
  intros Hw Hon Hsteps Hid Hsame Hty fuel.
  unfold executeWorkflow. rewrite Hw, Hon. cbn [negb].
  rewrite id_at_first, Hsteps. cbn [head fmap option_fmap option_map].
  assert (find_step w (step_id first) = Some first) as Hfind.
  { unfold find_step. rewrite Hsteps. simpl. by rewrite bool_decide_eq_true_2. }
  assert (id_at w (findIndex (steps w) (step_id first) + 1) = Some (step_id first))
    as Hnext.
  { rewrite Hsteps. cbn [findIndex]. rewrite bool_decide_eq_true_2 by done.
    unfold id_at. rewrite Hsteps. simpl. by rewrite Hsame. }
  generalize 0%nat ([] : list StepEntry) ([] : list WorkflowStep).
  induction fuel as [|fuel IH]; intros k results ran.
  - cbn [loop]. by rewrite EngineFacts.nonempty_Some, Hfind.
  - rewrite (EngineFacts.loop_step _ _ _ _ _ _ _ _ _ _ Hid Hfind).
    unfold turn, switch. rewrite Hty. ExecutorFacts.settle_decides.
    unfold after_switch. cbn [success succeed negb andb]. rewrite Hnext. apply IH.
Qed.

Lemma duplicate_id_never_returns_witness :
  executeWorkflow 1000 (steady (Normal (JBool true))) studio "twins" here = None.
Proof.
  apply (duplicate_id_never_returns (steady (Normal (JBool true))) studio
           "twins" here twins approve approve [build]);
    first [reflexivity | discriminate | vm_compute; reflexivity].
Defined.

(** X26. A condition step whose chosen pointer is missing, empty, or names
    no step of the workflow ends the run there, and the run counts as
    completed: [success = true], with the entry of the condition step last
    in the log, whatever steps come after it in the list. *)
Theorem dangling_pointer_completes fuel world k w context st results ran cur step :
  cur ≠ "" →
  find_step w cur = Some step →
  step_type step = "condition" →
  match nonempty (chosen (world k) w results step) with
  | Some next => find_step w next = None
  | None => True
  end →
  ∃ stepResult,
    success stepResult = true ∧
    loop (S fuel) world k w context st results ran (Some cur)
    = Some (completed w (results ++ [entry step stepResult]), st, ran ++ [step]).
Proof.
  intros Hcur Hfind Hty Hdangling.
  rewrite (EngineFacts.loop_step _ _ _ _ _ _ _ _ _ _ Hcur Hfind).
  unfold turn. rewrite (EngineFacts.switch_condition _ _ _ _ _ _ Hty). cbv zeta.
  fold (chosen (world k) w results step).
  eexists. split; [|destruct fuel; cbn [loop];
    destruct (nonempty (chosen (world k) w results step)) as [next|];
    rewrite ?Hdangling; reflexivity].
  done.
Qed.

Lemma dangling_pointer_completes_witness :
  ∃ stepResult,
    success stepResult = true ∧
    loop 1 (steady (Normal (JBool true))) 0 astray here studio [] [] (Some "lost")
    = Some (completed astray [entry lost stepResult], studio, [lost]).
Proof.
  apply (dangling_pointer_completes 0 (steady (Normal (JBool true))) 0 astray here
           studio [] [] "lost" lost);
    first [reflexivity | discriminate | vm_compute; reflexivity].
Defined.

Lemma turn_definitions senv st w context results cur step :
  match turn senv st w context results cur step with
  | Continue _ _ st' | Return _ st' =>
      workflows st' = workflows st ∧
      ∀ k, sans_headers <$> connectors st' !! k = sans_headers <$> connectors st !! k
  end.
Proof.
  unfold turn, switch, after_switch, caught.
  repeat case_decide; repeat case_match; simplify_eq;
    try done; by eapply ExecutorFacts.executeConnector_definitions.
Qed.

(** X28. A connector step always asks for the action [run]. The api, file
    and database strategies do not know it, so a connector step on an
    enabled connector of one of these types (with nothing cached under its
    key) always yields the failed result [Unsupported ... action: run];
    when the step is required the workflow halts there. *)
Theorem connector_step_on_api_fails senv st w context results cur step cid c key :
  step_type step = "connector" →
  nonempty (connectorId step) = Some cid →
  connectors st !! cid = Some c →
  enabled c = true →
  conn_type c ∈ ["api"; "file"; "database"] →
  cacheKey cid "run" (default_params (variables w)) = Normal key →
  responseCache st !! key = None →
  ∃ st',
    switch senv st w context results step
    = Result (with_duration (failure (unsupported_message c "run"))
                (now_end (conn_env senv) - now_start (conn_env senv))) st' ∧
    responseCache st' = responseCache st ∧
    (is_required step = true →
     ∃ r, turn senv st w context results cur step = Return r st' ∧
          wr_success r = false).
Proof.
  intros Hty Hcid Hc Hon Hkind Hkey Hmiss.
  assert (unsupported c "run") as Hun.
  { unfold unsupported. set_unfold in Hkind.
    destruct Hkind as [->|[->|[->|[]]]]; [left|right; left|right; right];
      (split; [done | compute_done]). }
  assert (∃ st', switch senv st w context results step
                 = Result (with_duration (failure (unsupported_message c "run"))
                             (now_end (conn_env senv) - now_start (conn_env senv))) st' ∧
                 responseCache st' = responseCache st) as (st' & Hsw & Hcache).
  { unfold switch. rewrite Hty, decide_True by done. rewrite Hcid.
    rewrite (ExecutorFacts.executeConnector_miss _ _ _ _ _ _ _ _ Hc Hon Hkey)
      by (by rewrite Hmiss).
    destruct (ExecutorFacts.dispatch_unsupported (conn_env senv) st cid c "run"
                (default_params (variables w)) (Some context) Hun)
      as (conns & ran & ->).
    by eexists. }
  exists st'. split; [done|]. split; [done|]. intros Hreq.
  unfold turn, after_switch. rewrite Hsw, Hreq. by eexists.
Qed.

Lemma connector_step_on_api_fails_witness :
  ∃ st',
    switch (steady (Normal (JBool true)) 0) studio fetching here [] fetch
    = Result (with_duration (failure "Unsupported API action: run") 7) st' ∧
    responseCache st' = ∅.
Proof.
  destruct (connector_step_on_api_fails (steady (Normal (JBool true)) 0) studio
              fetching here [] "fetch" fetch "github" github "github:run:{}")
    as (st' & Hsw & Hcache & _);
    first [reflexivity | compute_done | (vm_compute; reflexivity) | idtac].
  exists st'. split; assumption.
Defined.

End WorkflowFacts.

(** ** The engine with condition expressions that write *)

Module LiveFacts.
Import Js Hub Engine Registry Live Samples Fixtures.

Lemma with_variables_id w : with_variables w (variables w) = w.
Proof. by destruct w. Qed.

Lemma live_switch_condition lenv st workflowId w context results step :
  step_type step = "condition" →
  Live.switch lenv st workflowId w context results step =
    let expression := default "true" (nonempty (condition step)) in
    let ev := live_evaluate lenv expression (variables w) results (responseCache st) in
    let conditionResult :=
      Live.evaluateCondition lenv expression (variables w) results (responseCache st) in
    (Navigate (ev_results ev ++ [entry step (succeed (JObj [("result", conditionResult)]))])
       (if truthy conditionResult then onSuccess step else onFailure step)
       (after_evaluation st workflowId w ev),
     with_variables w (ev_variables ev)).
Proof. intros Hty. unfold Live.switch. rewrite Hty. by repeat case_decide. Qed.

(** Outside condition steps a turn is that of the pure engine and leaves
    the workflow alone. *)
Lemma turn_other lenv st workflowId w context results cur step :
  step_type step ≠ "condition" →
  Live.turn lenv st workflowId w context results cur step
  = (Engine.turn (plain lenv) st w context results cur step, w).
Proof.
  intros Hty. unfold Live.turn, Engine.turn, Live.switch, Engine.switch.
  cbn [plain conn_env getCodeCompletion].
  repeat case_decide; try done; repeat case_match; simplify_eq; done.
Qed.

Lemma turn_condition lenv st workflowId w context results cur step :
  step_type step = "condition" →
  Live.turn lenv st workflowId w context results cur step =
    let expression := default "true" (nonempty (condition step)) in
    let ev := live_evaluate lenv expression (variables w) results (responseCache st) in
    let conditionResult :=
      Live.evaluateCondition lenv expression (variables w) results (responseCache st) in
    (Continue (ev_results ev ++ [entry step (succeed (JObj [("result", conditionResult)]))])
       (if truthy conditionResult then onSuccess step else onFailure step)
       (after_evaluation st workflowId w ev),
     with_variables w (ev_variables ev)).
Proof. intros Hty. unfold Live.turn. by rewrite live_switch_condition. Qed.

(** *** The pure engine is the engine of evaluations without effect *)

Lemma after_calm_evaluation st workflowId w ev :
  workflows st !! workflowId = Some w →
  ev_variables ev = variables w →
  ev_cache ev = responseCache st →
  after_evaluation st workflowId w ev = st.
Proof.
  intros Hw Hv Hc. unfold after_evaluation.
  rewrite Hv, Hc, with_variables_id, insert_id by done. by destruct st.
Qed.

Lemma calm_turn senv st workflowId w context results cur step :
  workflows st !! workflowId = Some w →
  Live.turn (calm senv) st workflowId w context results cur step
  = (Engine.turn senv st w context results cur step, w).
Proof.
  intros Hw. destruct (decide (step_type step = "condition")) as [Hty|Hty].
  - rewrite turn_condition by done. cbv zeta.
    rewrite after_calm_evaluation by done.
    unfold Engine.turn. rewrite EngineFacts.switch_condition by done.
    cbn [calm live_evaluate ev_variables ev_results]. by rewrite with_variables_id.
  - rewrite turn_other by done.
    f_equal; unfold Engine.turn, Engine.switch;
      cbn [plain calm conn_env getCodeCompletion live_conn_env live_getCodeCompletion];
      repeat case_decide; done.
Qed.

Lemma calm_loop fuel : ∀ world k workflowId w context st results ran cur,
  workflows st !! workflowId = Some w →
  Live.loop fuel (fun k => calm (world k)) k workflowId w context st results ran cur
  = Engine.loop fuel world k w context st results ran cur.
Proof.
  induction fuel as [|fuel IH]; intros world k workflowId w context st results ran cur Hw;
    cbn [Live.loop Engine.loop]; [done|].
  destruct (nonempty cur) as [c|]; [|done].
  destruct (find_step w c) as [step|]; [|done].
  rewrite calm_turn by done.
  pose proof (WorkflowFacts.turn_definitions (world k) st w context results c step) as Hdef.
  destruct (Engine.turn _ _ _ _ _ _ _) as [results' next st'|r st']; [|done].
  apply IH. destruct Hdef as [-> _]. done.
Qed.

(** A run of the pure engine is a run of this one in a world whose
    evaluations leave the log, the variables and the cache as they are. *)
Lemma calm_run fuel world st workflowId context :
  Live.executeWorkflow fuel (fun k => calm (world k)) st workflowId context
  = Engine.executeWorkflow fuel world st workflowId context.
Proof.
  unfold Live.executeWorkflow, Engine.executeWorkflow.
  destruct (workflows st !! workflowId) as [w|] eqn:Hw; [|done].
  destruct (negb (wf_enabled w)); [done|]. by apply calm_loop.
Qed.

(** *** The log of a run *)







(** *** The hub after a run *)





End LiveFacts.
